(** * Directory Fuzzer: the target resolver, the probe and the scan loop

    A shallow embedding of [src/directory_fuzzer.tsx] (the React component
    [DirectoryFuzzer]) and the properties of its scan controller.

    - JavaScript strings are sequences of UTF-16 code units: [jsstring] is a
      list of code units, and the string methods the component calls
      ([startsWith], [endsWith], [slice], [trim], [+]) are written out on it.
    - The React state of the component and the [abortControllerRef] are the
      record [Component]; the local variables of one invocation of the async
      function [startScan] are the record [Frame], with the [await] at which
      the invocation is suspended.
    - The environment (network, timers, the user) acts through [Event]s; one
      event is one macrotask of the browser's event loop, and [step] runs the
      code that the event triggers up to the next suspension.  [run] is one
      invocation alone with the component: there is no event for the Start
      button.
    - A [Session] is the page with all its controls: any number of
      invocations of [startScan], each with its own frame, on the one
      component.  Pressing Start while an earlier invocation is suspended is
      an overlap; what holds of a scan holds of sessions without overlap,
      and the overlap has its own theorems. *)

From Stdlib Require Import PrimFloat.
From Stdlib Require Uint63.
From Stdlib Require Import String Ascii NArith ZArith Bool Lia List.
Import ListNotations.

Set Implicit Arguments.

(* ================================================================== *)
(** ** JavaScript strings *)

Module JsString.

(** One UTF-16 code unit ([0 .. 0xFFFF]). *)
Definition codeunit := N.
Definition jsstring := list codeunit.

(** A string literal of the source (all of them are ASCII). *)
Fixpoint lit (s : string) : jsstring :=
  match s with
  | EmptyString => []
  | String a s' => N_of_ascii a :: lit s'
  end.

(** [===] on strings. *)
Fixpoint eqb (s t : jsstring) : bool :=
  match s, t with
  | [], [] => true
  | c :: s', d :: t' => N.eqb c d && eqb s' t'
  | _, _ => false
  end.

(** [s.slice(start, end)] (ECMAScript String.prototype.slice): negative
    indices count from the end, both are clamped to [0 .. length]. *)
Definition slice (s : jsstring) (start end_ : Z) : jsstring :=
  let len := Z.of_nat (length s) in
  let from := if (start <? 0)%Z then Z.max (len + start) 0 else Z.min start len in
  let to := if (end_ <? 0)%Z then Z.max (len + end_) 0 else Z.min end_ len in
  if (from >=? to)%Z then []
  else firstn (Z.to_nat (to - from)) (skipn (Z.to_nat from) s).

(** [s.startsWith(p)]: the first [p.length] code units of [s] are [p]. *)
Definition startsWith (s p : jsstring) : bool :=
  if (length s <? length p)%nat then false
  else eqb (firstn (length p) s) p.

(** [s.endsWith(p)]: the last [p.length] code units of [s] are [p]. *)
Definition endsWith (s p : jsstring) : bool :=
  if (length s <? length p)%nat then false
  else eqb (skipn (length s - length p) s) p.

(** The code units [trim] removes: ECMAScript WhiteSpace and
    LineTerminator. *)
Definition isWhiteSpace (c : codeunit) : bool :=
  ((9 <=? c) && (c <=? 13)          (* TAB LF VT FF CR *)
   || (c =? 32)                     (* SPACE *)
   || (c =? 160)                    (* NO-BREAK SPACE *)
   || (c =? 5760)                   (* U+1680 *)
   || (8192 <=? c) && (c <=? 8202)  (* U+2000 .. U+200A *)
   || (c =? 8232) || (c =? 8233)    (* U+2028 U+2029 *)
   || (c =? 8239)                   (* U+202F *)
   || (c =? 8287)                   (* U+205F *)
   || (c =? 12288)                  (* U+3000 *)
   || (c =? 65279))%N.              (* U+FEFF *)

Fixpoint trimStart (s : jsstring) : jsstring :=
  match s with
  | [] => []
  | c :: s' => if isWhiteSpace c then trimStart s' else s
  end.

Definition trimEnd (s : jsstring) : jsstring := rev (trimStart (rev s)).

(** [s.trim()]. *)
Definition trim (s : jsstring) : jsstring := trimEnd (trimStart s).

(** Truthiness of a string: [!s] is true exactly for the empty string. *)
Definition isEmpty (s : jsstring) : bool :=
  match s with [] => true | _ :: _ => false end.

End JsString.

Import JsString.
Arguments lit : simpl never.

Local Open Scope string_scope.
Local Open Scope list_scope.

(* ================================================================== *)
(** ** Target resolver: [normalizeUrl] (lines 26-31) *)

Definition normalizeUrl (url : jsstring) : jsstring :=
  let url :=
    if negb (startsWith url (lit "http://")) && negb (startsWith url (lit "https://"))
    then (lit "https://") ++ url
    else url in
  if endsWith url (lit "/") then slice url 0 (-1) else url.


(* ================================================================== *)
(** ** Probe results, statistics, errors *)

(** The record [checkPath] returns (lines 44-50 and 55-61). *)
Module Result.
Record t := mk {
  path : jsstring;
  url : jsstring;
  status : jsstring;
  found : bool;
  timestamp : jsstring
}.
End Result.

(** The [stats] object [{ found, notFound, errors }].  The counters are
    JavaScript numbers that only ever count candidates, far below [2^53]. *)
Module Stats.
Record t := mk {
  found : nat;
  notFound : nat;
  errors : nat
}.
Definition zero : t := mk 0 0 0.
Definition incrFound (s : t) : t := mk (S (found s)) (notFound s) (errors s).
Definition incrNotFound (s : t) : t := mk (found s) (S (notFound s)) (errors s).
Definition incrErrors (s : t) : t := mk (found s) (notFound s) (S (errors s)).
Definition total (s : t) : nat := found s + notFound s + errors s.
End Stats.

(** A thrown JavaScript error, as far as the component inspects it. *)
Record JsError := {
  name : jsstring;
  message : jsstring
}.

(** How an evaluation ends: [return] or [throw]. *)
Inductive Completion (A : Type) : Type :=
| Return (a : A)
| Throw (error : JsError).
Arguments Return {A} a.
Arguments Throw {A} error.

(** How the promise of [fetch(url, { mode: 'no-cors', signal })] settles:
    it fulfils with an opaque response (nothing of which is readable, and
    nothing of which the component reads), or it rejects with an error. *)
Inductive FetchOutcome : Type :=
| Fulfilled
| Rejected (error : JsError).

(* ================================================================== *)
(** ** The probe: [checkPath] (lines 33-63)

    [settled] is the way the awaited [fetch] settles and [now] is what
    [new Date().toISOString()] reads when the record is built. *)

Definition checkPath (baseUrl path : jsstring)
    (settled : FetchOutcome) (now : jsstring) : Completion Result.t :=
  let url := baseUrl ++ lit "/" ++ path in
  match settled with
  | Fulfilled =>
      Return (Result.mk path url (lit "Unknown (CORS)") true now)
  | Rejected error =>
      if eqb (name error) (lit "AbortError") then Throw error
      else Return (Result.mk path url (message error) false now)
  end.

(* ================================================================== *)
(** ** The component's state *)

Record AbortController := { aborted : bool }.

(** A JavaScript number with the value [n].  Numbers are IEEE 754 doubles,
    which [float] is, with the same rounding to nearest; the conversion is
    exact below [2^53], and the length of an array is below [2^32]. *)
Definition numberOf (n : nat) : float :=
  of_uint63 (Uint63.of_Z (Z.of_nat n)).

(** The [useState] cells and the [useRef] cell of [DirectoryFuzzer]
    (lines 5-11). *)
Record Component := {
  targetUrl : jsstring;
  isScanning : bool;
  isPaused : bool;
  results : list Result.t;
  progress : float;
  stats : Stats.t;
  abortControllerRef : option AbortController   (* [.current]; [None] is null *)
}.

Definition setIsScanning (b : bool) (c : Component) : Component :=
  Build_Component (targetUrl c) b (isPaused c) (results c) (progress c)
                  (stats c) (abortControllerRef c).
Definition setIsPaused (b : bool) (c : Component) : Component :=
  Build_Component (targetUrl c) (isScanning c) b (results c) (progress c)
                  (stats c) (abortControllerRef c).
Definition setResults (update : list Result.t -> list Result.t)
    (c : Component) : Component :=
  Build_Component (targetUrl c) (isScanning c) (isPaused c) (update (results c))
                  (progress c) (stats c) (abortControllerRef c).
Definition setProgress (p : float) (c : Component) : Component :=
  Build_Component (targetUrl c) (isScanning c) (isPaused c) (results c) p
                  (stats c) (abortControllerRef c).
Definition setStats (s : Stats.t) (c : Component) : Component :=
  Build_Component (targetUrl c) (isScanning c) (isPaused c) (results c)
                  (progress c) s (abortControllerRef c).
Definition setAbortController (r : option AbortController)
    (c : Component) : Component :=
  Build_Component (targetUrl c) (isScanning c) (isPaused c) (results c)
                  (progress c) (stats c) r.

(** [abortControllerRef.current?.signal.aborted], as a condition. *)
Definition signalAborted (c : Component) : bool :=
  match abortControllerRef c with
  | Some controller => aborted controller
  | None => false
  end.

(** [stopScan] (lines 122-126). *)
Definition stopScan (c : Component) : Component :=
  let c :=
    match abortControllerRef c with
    | Some _ => setAbortController (Some {| aborted := true |}) c
    | None => c
    end in
  setIsPaused false (setIsScanning false c).

(** [togglePause] (lines 128-130). *)
Definition togglePause (c : Component) : Component :=
  setIsPaused (negb (isPaused c)) c.

(** The wordlist of the component (lines 13-24). *)
Definition commonPaths : list jsstring := map lit [
  "admin"; "administrator"; "login"; "dashboard"; "wp-admin"; "phpmyadmin";
  "cpanel"; "panel"; "control"; "api"; "backup"; "backups"; "db"; "database";
  "config"; "configuration"; "settings"; "setup"; "install"; "old"; "new";
  "test"; "demo"; "dev"; "development"; "staging"; "beta"; "temp"; "tmp";
  "private"; "secret"; "hidden"; "uploads"; "images"; "img"; "files"; "docs";
  "documents"; "download"; "downloads"; "static"; "assets"; "css"; "js";
  "scripts"; "includes"; "inc"; "lib"; "libraries"; "vendor"; "node_modules";
  "logs"; "log"; "errors"; "debug"; "trace"; "admin.php"; "login.php";
  "config.php"; "database.php"; ".git"; ".env"; ".htaccess"; "robots.txt";
  "sitemap.xml"; "wp-config.php"; "web.config"; "README.md"; "LICENSE"
].

(* ================================================================== *)
(** ** One invocation of [startScan] (lines 65-120)

    [startScan] is an async function: it runs until an [await] on something
    the environment must settle, and is resumed from there.  The three such
    places are the pause wait (lines 85-92), the [fetch] inside [checkPath]
    (line 36, awaited at line 96) and the delay (line 110). *)

Inductive Suspension : Type :=
| AwaitPause    (* inside the promise of lines 85-92; the interval is running *)
| AwaitFetch    (* inside [checkPath], the request is in flight *)
| AwaitDelay    (* inside the 100 ms timeout of line 110 *)
| Returned.     (* the function has run to its end *)

(** The variables of the invocation.  [closure_isPaused] is the [isPaused]
    the function body reads: the binding of the render in which this
    [startScan] closure was created, not the live state cell. *)
Record Frame := {
  closure_isPaused : bool;
  baseUrl : jsstring;
  currentStats : Stats.t;
  i : nat
}.

Definition setCurrentStats (s : Stats.t) (f : Frame) : Frame :=
  Build_Frame (closure_isPaused f) (baseUrl f) s (i f).
Definition incrI (f : Frame) : Frame :=
  Build_Frame (closure_isPaused f) (baseUrl f) (currentStats f) (S (i f)).

Record Machine := {
  ui : Component;
  frame : Frame;
  at_ : Suspension
}.

(** What [startScan] does when it is called. *)
Inductive Start : Type :=
| Alerted (text : jsstring) (c : Component)   (* [alert(text); return] *)
| Scanning (m : Machine).

(** What the environment can do to one invocation of [startScan] that is
    alone with the component; each is one task of the event loop.  The click
    handlers are modelled whether or not their button is currently
    rendered.  The Start button is an [Action] of a [Session], below. *)
Inductive Event : Type :=
| FetchResponded                   (* the request in flight got a response *)
| FetchFailed (reason : jsstring)  (* the request in flight failed: TypeError *)
| Tick                             (* the 100 ms interval of line 86 fires *)
| DelayElapsed                     (* the timeout of line 110 fires *)
| StopClicked                      (* the Stop button: [stopScan] *)
| PauseClicked.                    (* the Pause/Resume button: [togglePause] *)

Section Scan.

(** [commonPaths], as a parameter: the list the loop walks. *)
Variable wordlist : list jsstring.
(** [clock k] is the reading of [new Date().toISOString()] when the probe
    of candidate [k] settles. *)
Variable clock : nat -> jsstring.
(** The message of the browser's abort exception. *)
Variable abortMessage : jsstring.

(** The [DOMException] a request is rejected with when its signal aborts. *)
Definition abortError : JsError :=
  {| name := lit "AbortError"; message := abortMessage |}.
(** The [TypeError] a request is rejected with when the network fails. *)
Definition typeError (reason : jsstring) : JsError :=
  {| name := lit "TypeError"; message := reason |}.

(** Calling [fetch] with the controller's signal: a request whose signal is
    already aborted is rejected at once, any other stays in flight. *)
Definition fetch (c : Component) : option FetchOutcome :=
  if signalAborted c then Some (Rejected abortError) else None.

(** Leaving the loop, lines 118-119. *)
Definition exitLoop (c : Component) (f : Frame) : Machine :=
  {| ui := setIsPaused false (setIsScanning false c);
     frame := f;
     at_ := Returned |}.

(** Lines 98-110: [checkPath] returned [result]. *)
Definition recordResult (result : Result.t) (c : Component) (f : Frame)
  : Machine :=
  let c := setResults (fun prev => result :: prev) c in
  let f :=
    if Result.found result
    then setCurrentStats (Stats.incrFound (currentStats f)) f
    else setCurrentStats (Stats.incrNotFound (currentStats f)) f in
  let c := setStats (currentStats f) c in
  let c :=
    setProgress (numberOf (i f + 1) / numberOf (length wordlist) * 100)%float
                c in
  {| ui := c; frame := f; at_ := AwaitDelay |}.

(** Lines 111-115: the [try] block threw [error]; [next] is the next
    iteration of the loop. *)
Definition catchError (next : Component -> Frame -> Machine)
    (error : JsError) (c : Component) (f : Frame) : Machine :=
  if eqb (name error) (lit "AbortError") then exitLoop c f
  else
    let f := setCurrentStats (Stats.incrErrors (currentStats f)) f in
    let c := setStats (currentStats f) c in
    next c f.

(** Lines 95-115 from the point where [checkPath] completes. *)
Definition afterCheckPath (next : Component -> Frame -> Machine)
    (completion : Completion Result.t) (c : Component) (f : Frame)
  : Machine :=
  match completion with
  | Return result => recordResult result c f
  | Throw error => catchError next error c f
  end.

(** Line 96, [await checkPath(baseUrl, commonPaths[i])]. *)
Definition probe (next : Component -> Frame -> Machine) (path : jsstring)
    (c : Component) (f : Frame) : Machine :=
  match fetch c with
  | None => {| ui := c; frame := f; at_ := AwaitFetch |}
  | Some settled =>
      afterCheckPath next (checkPath (baseUrl f) path settled (clock (i f)))
                     c f
  end.

(** The [for] loop from its condition (line 82), with [rest] the candidates
    from index [i] on. *)
Fixpoint loopFrom (rest : list jsstring) (c : Component) (f : Frame)
  : Machine :=
  match rest with
  | [] => exitLoop c f
  | path :: rest' =>
      if signalAborted c then exitLoop c f
      else if closure_isPaused f
           then {| ui := c; frame := f; at_ := AwaitPause |}
           else probe (fun c' f' => loopFrom rest' c' (incrI f')) path c f
  end.

Definition loop (c : Component) (f : Frame) : Machine :=
  loopFrom (skipn (i f) wordlist) c f.

(** [i++], then the loop condition. *)
Definition nextIteration (c : Component) (f : Frame) : Machine :=
  loop c (incrI f).

(** [commonPaths[i]] inside the template literal of line 34. *)
Definition candidate (f : Frame) : jsstring :=
  nth (i f) wordlist (lit "undefined").

(** [startScan] up to its first suspension. *)
Definition startScan (c : Component) : Start :=
  if isEmpty (trim (targetUrl c)) then
    Alerted (lit "Please enter a target URL") c
  else
    let c' := setIsScanning true c in
    let c' := setIsPaused false c' in
    let c' := setResults (fun _ => []) c' in
    let c' := setProgress 0 c' in
    let c' := setStats Stats.zero c' in
    let f := {| closure_isPaused := isPaused c;
                baseUrl := normalizeUrl (targetUrl c);
                currentStats := Stats.zero;
                i := 0 |} in
    let c' := setAbortController (Some {| aborted := false |}) c' in
    Scanning (loop c' f).

(** One event. *)
Definition step (ev : Event) (m : Machine) : Machine :=
  let c := ui m in
  let f := frame m in
  match ev, at_ m with
  | FetchResponded, AwaitFetch =>
      afterCheckPath nextIteration
        (checkPath (baseUrl f) (candidate f) Fulfilled (clock (i f))) c f
  | FetchFailed reason, AwaitFetch =>
      afterCheckPath nextIteration
        (checkPath (baseUrl f) (candidate f) (Rejected (typeError reason))
                   (clock (i f))) c f
  | Tick, AwaitPause =>
      if negb (closure_isPaused f) || signalAborted c
      then probe nextIteration (candidate f) c f
      else m
  | DelayElapsed, AwaitDelay => nextIteration c f
  | StopClicked, AwaitFetch =>
      (* [abort()] on a live signal rejects the request in flight; the rest
         of [stopScan] runs before the awaiting code is resumed *)
      if negb (signalAborted c) && signalAborted (stopScan c)
      then afterCheckPath nextIteration
             (checkPath (baseUrl f) (candidate f) (Rejected abortError)
                        (clock (i f))) (stopScan c) f
      else {| ui := stopScan c; frame := f; at_ := at_ m |}
  | StopClicked, _ => {| ui := stopScan c; frame := f; at_ := at_ m |}
  | PauseClicked, _ => {| ui := togglePause c; frame := f; at_ := at_ m |}
  | _, _ => m
  end.

(** A sequence of events, oldest first. *)
Definition run (evs : list Event) (m : Machine) : Machine :=
  fold_left (fun m ev => step ev m) evs m.

End Scan.

(* ================================================================== *)
(** ** The resolver as the specification words it

    [Resolve rawInput base] reads the contract of the target resolver off the
    raw input: the secure scheme is put in front exactly when the input has
    no recognised scheme, and one trailing separator of the input is removed
    when there is one. *)

Inductive SchemeQualified : jsstring -> Prop :=
| qualified_http (rest : jsstring) : SchemeQualified (lit "http://" ++ rest)
| qualified_https (rest : jsstring) : SchemeQualified (lit "https://" ++ rest).

Inductive StripOne : jsstring -> jsstring -> Prop :=
| strip_separator (body : jsstring) : StripOne (body ++ lit "/") body
| strip_nothing (s : jsstring) :
    (forall body, s <> body ++ lit "/") -> StripOne s s.

Inductive Resolve : jsstring -> jsstring -> Prop :=
| resolve_bare (rawInput out : jsstring) :
    ~ SchemeQualified rawInput -> StripOne rawInput out ->
    Resolve rawInput (lit "https://" ++ out)
| resolve_qualified (rawInput out : jsstring) :
    SchemeQualified rawInput -> StripOne rawInput out ->
    Resolve rawInput out.

(** ** Vocabulary of the scan properties *)

(** The stop button was pressed somewhere in [evs]. *)
Definition stopRequested (evs : list Event) : bool :=
  existsb (fun ev => match ev with StopClicked => true | _ => false end) evs.

(** The timer a scan suspended at [a] is waiting for fires somewhere in
    [evs]; a scan that waits for no timer needs none. *)
Definition pendingTimerFired (a : Suspension) (evs : list Event) : bool :=
  match a with
  | AwaitPause =>
      existsb (fun ev => match ev with Tick => true | _ => false end) evs
  | AwaitDelay =>
      existsb (fun ev => match ev with DelayElapsed => true | _ => false end)
              evs
  | AwaitFetch | Returned => true
  end.

(** The events of a scan in which every request gets a response and nobody
    touches the buttons. *)
Fixpoint allRespond (n : nat) : list Event :=
  match n with
  | 0 => []
  | S n' => FetchResponded :: DelayElapsed :: allRespond n'
  end.

(** The component before its first scan (the initial values of lines 5-11)
    with [target] typed into the input. *)
Definition idle (target : jsstring) : Component :=
  {| targetUrl := target; isScanning := false; isPaused := false;
     results := []; progress := 0; stats := Stats.zero;
     abortControllerRef := None |}.

(** A clock and an abort message to run examples with. *)
Definition sampleClock (k : nat) : jsstring := lit "2026-01-01T00:00:00.000Z".
Definition sampleAbortMessage : jsstring := lit "The operation was aborted.".

(** What holds of the state of a scan whenever it is suspended or has
    returned: the tally matches the result list, the error counter has never
    moved, and the results are the candidates probed so far, newest first. *)
Record Tallied (wordlist : list jsstring) (c : Component) (f : Frame)
  : Prop := {
  inv_stats : stats c = currentStats f;
  inv_errors : Stats.errors (stats c) = 0;
  inv_count :
    Stats.found (stats c) + Stats.notFound (stats c) = length (results c);
  inv_paths :
    map Result.path (results c) = rev (firstn (length (results c)) wordlist);
  inv_urls :
    Forall (fun r => Result.url r = baseUrl f ++ lit "/" ++ Result.path r)
           (results c);
  inv_bound : length (results c) <= length wordlist;
  inv_controller : abortControllerRef c <> None;
  inv_stopped : signalAborted c = true -> isScanning c = false
}.

(** Where the index [i] is at each suspension. *)
Definition Placed (wordlist : list jsstring) (m : Machine) : Prop :=
  match at_ m with
  | AwaitPause =>
      i (frame m) = length (results (ui m))
      /\ i (frame m) < length wordlist
      /\ closure_isPaused (frame m) = true
  | AwaitFetch =>
      i (frame m) = length (results (ui m))
      /\ i (frame m) < length wordlist
      /\ signalAborted (ui m) = false
  | AwaitDelay =>
      S (i (frame m)) = length (results (ui m))
  | Returned =>
      isScanning (ui m) = false
      /\ (signalAborted (ui m) = true
          \/ length (results (ui m)) = length wordlist)
  end.

Definition Consistent (wordlist : list jsstring) (m : Machine) : Prop :=
  Tallied wordlist (ui m) (frame m) /\ Placed wordlist m.

(* ================================================================== *)
(** ** More of the component *)

(** The value line 107 gives [progress] when the [n]-th result has been
    recorded, [((i + 1) / commonPaths.length) * 100] with [i + 1 = n]. *)
Definition progressAfter (wordlist : list jsstring) (n : nat) : float :=
  (numberOf n / numberOf (length wordlist) * 100)%float.

(** [progress] is what line 107 computed for the newest result. *)
Definition Measured (wordlist : list jsstring) (m : Machine) : Prop :=
  progress (ui m)
  = match results (ui m) with
    | [] => 0%float
    | _ :: _ => progressAfter wordlist (length (results (ui m)))
    end.

(** [evs] with the clicks on the Pause/Resume button left out. *)
Definition withoutPauses (evs : list Event) : list Event :=
  filter (fun ev => match ev with PauseClicked => false | _ => true end) evs.

(** [setTargetUrl], the [onChange] handler of the input (line 179). *)
Definition setTargetUrl (text : jsstring) (c : Component) : Component :=
  Build_Component text (isScanning c) (isPaused c) (results c) (progress c)
                  (stats c) (abortControllerRef c).

(** What the render shows (lines 185-209 and line 180): the Start button
    when no scan is shown, the Pause and Stop buttons otherwise; the input is
    disabled while a scan is shown. *)
Definition startButtonShown (c : Component) : bool := negb (isScanning c).
Definition scanButtonsShown (c : Component) : bool := isScanning c.
Definition inputEnabled (c : Component) : bool := negb (isScanning c).

(** *** Several invocations of [startScan] on one component

    Nothing keeps the Start button from being pressed while an earlier
    invocation of [startScan] is still suspended: [stopScan] shows the Start
    button at once.  All invocations share the component's state cells and
    the one [abortControllerRef]; each has its own frame.  A request in
    flight carries the signal of the controller that was current when the
    request was issued; controllers are numbered in the order [startScan]
    creates them, and the current one is the last. *)

Record Call := {
  call_frame : Frame;
  call_at : Suspension;
  call_signal : nat   (* the controller whose signal the request carries *)
}.

Record Session := {
  shared : Component;
  controllers : nat;   (* how many controllers have been created *)
  calls : list Call
}.

(** What happens to a session: the user's actions, and the environment
    resuming the [j]-th invocation with an event ([ev] a response, a
    failure, or a timer). *)
Inductive Action : Type :=
| ClickStart
| ClickStop
| ClickPause
| TypeTarget (text : jsstring)
| Resume (j : nat) (ev : Event).

Section Sessions.

Variable wordlist : list jsstring.
Variable clock : nat -> jsstring.
Variable abortMessage : jsstring.

(** An invocation and the component, as the machine of one scan. *)
Definition machineOf (c : Component) (k : Call) : Machine :=
  {| ui := c; frame := call_frame k; at_ := call_at k |}.

(** Resuming one invocation: its code runs on the shared component up to its
    next suspension.  When that leaves it with a request in flight that it
    did not have before, the request carries the current signal. *)
Definition resumeCall (current : nat) (ev : Event) (c : Component) (k : Call)
  : Component * Call :=
  let m' := step wordlist clock abortMessage ev (machineOf c k) in
  let issued :=
    match at_ m', call_at k with
    | AwaitFetch, AwaitFetch => false
    | AwaitFetch, _ => true
    | _, _ => false
    end in
  (ui m',
   {| call_frame := frame m';
      call_at := at_ m';
      call_signal := if issued then current else call_signal k |}).

Fixpoint resumeNth (j : nat) (current : nat) (ev : Event) (c : Component)
    (ks : list Call) : Component * list Call :=
  match ks, j with
  | [], _ => (c, [])
  | k :: ks', 0 =>
      let (c', k') := resumeCall current ev c k in (c', k' :: ks')
  | k :: ks', S j' =>
      let (c', ks'') := resumeNth j' current ev c ks' in (c', k :: ks'')
  end.

(** The current signal aborts: an invocation whose request in flight carries
    it sees the request rejected, and runs on from the [catch] of
    [checkPath]. *)
Definition rejectCall (current : nat) (c : Component) (k : Call)
  : Component * Call :=
  let f := call_frame k in
  match call_at k with
  | AwaitFetch =>
      if (call_signal k =? current)%nat then
        let m' :=
          afterCheckPath wordlist (nextIteration wordlist clock abortMessage)
            (checkPath (baseUrl f) (candidate wordlist f)
                       (Rejected (abortError abortMessage)) (clock (i f)))
            c f in
        (ui m',
         {| call_frame := frame m';
            call_at := at_ m';
            call_signal := call_signal k |})
      else (c, k)
  | _ => (c, k)
  end.

Fixpoint rejectAll (current : nat) (c : Component) (ks : list Call)
  : Component * list Call :=
  match ks with
  | [] => (c, [])
  | k :: ks' =>
      let (c1, k1) := rejectCall current c k in
      let (c2, ks2) := rejectAll current c1 ks' in
      (c2, k1 :: ks2)
  end.

(** One action. *)
Definition act (a : Action) (s : Session) : Session :=
  match a with
  | ClickStart =>
      match startScan wordlist clock abortMessage (shared s) with
      | Alerted _ _ => s
      | Scanning m =>
          {| shared := ui m;
             controllers := S (controllers s);
             calls := calls s ++ [{| call_frame := frame m;
                                     call_at := at_ m;
                                     call_signal := S (controllers s) |}] |}
      end
  | ClickStop =>
      let c := stopScan (shared s) in
      if negb (signalAborted (shared s)) && signalAborted c then
        let (c', ks) := rejectAll (controllers s) c (calls s) in
        {| shared := c'; controllers := controllers s; calls := ks |}
      else
        {| shared := c; controllers := controllers s; calls := calls s |}
  | ClickPause =>
      {| shared := togglePause (shared s);
         controllers := controllers s;
         calls := calls s |}
  | TypeTarget text =>
      {| shared := setTargetUrl text (shared s);
         controllers := controllers s;
         calls := calls s |}
  | Resume j ev =>
      match ev with
      | StopClicked | PauseClicked => s
      | _ =>
          let (c', ks) :=
            resumeNth j (controllers s) ev (shared s) (calls s) in
          {| shared := c'; controllers := controllers s; calls := ks |}
      end
  end.

(** A sequence of actions, oldest first. *)
Definition session (acts : list Action) (s : Session) : Session :=
  fold_left (fun s a => act a s) acts s.

(** The render lets the user do [a] in [s]. *)
Definition permitted (a : Action) (s : Session) : bool :=
  match a with
  | ClickStart => startButtonShown (shared s)
  | ClickStop | ClickPause => scanButtonsShown (shared s)
  | TypeTarget _ => inputEnabled (shared s)
  | Resume _ _ => true
  end.

(** Every action of [acts] is one the render lets the user do when its turn
    comes. *)
Fixpoint permittedAll (acts : list Action) (s : Session) : bool :=
  match acts with
  | [] => true
  | a :: acts' => permitted a s && permittedAll acts' (act a s)
  end.

End Sessions.

(** The page as loaded, with [target] typed in. *)
Definition fresh (target : jsstring) : Session :=
  {| shared := idle target; controllers := 0; calls := [] |}.

(** *** Sessions without overlap

    In a session without overlap the Start button is only pressed when every
    earlier invocation of [startScan] has returned. *)

Definition returned (k : Call) : bool :=
  match call_at k with
  | Returned => true
  | _ => false
  end.

Definition allReturned (s : Session) : bool := forallb returned (calls s).

Fixpoint noOverlap (wordlist : list jsstring) (clock : nat -> jsstring)
    (abortMessage : jsstring) (acts : list Action) (s : Session) : bool :=
  match acts with
  | [] => true
  | a :: acts' =>
      match a with
      | ClickStart => allReturned s
      | _ => true
      end
      && noOverlap wordlist clock abortMessage acts'
                   (act wordlist clock abortMessage a s)
  end.

(** The invocation started last. *)
Definition newest (s : Session) : option Call :=
  nth_error (calls s) (pred (length (calls s))).


Definition isStart (a : Action) : bool :=
  match a with
  | ClickStart => true
  | _ => false
  end.


(** An event that is not a click. *)
Definition fromEnvironment (ev : Event) : Prop :=
  ev <> StopClicked /\ ev <> PauseClicked.

(** What an action is to invocation [n] when it is the only one that has
    not returned: the event it sees, if any. *)
Definition eventOf (n : nat) (a : Action) : list Event :=
  match a with
  | ClickStart | TypeTarget _ => []
  | ClickStop => [StopClicked]
  | ClickPause => [PauseClicked]
  | Resume j ev =>
      match ev with
      | StopClicked | PauseClicked => []
      | _ => if (j =? n)%nat then [ev] else []
      end
  end.

(** The session is, but for the text in the input, the machine [m] of its
    newest invocation, beside invocations that have returned. *)
Definition Solo (s : Session) (m : Machine) : Prop :=
  (exists olds k,
      calls s = olds ++ [k]
      /\ Forall (fun o => call_at o = Returned) olds
      /\ call_frame k = frame m
      /\ call_at k = at_ m
      /\ call_signal k = controllers s)
  /\ shared s = setTargetUrl (targetUrl (shared s)) (ui m).

(** The page before the first scan. *)
Definition Unstarted (s : Session) : Prop :=
  calls s = []
  /\ results (shared s) = []
  /\ stats (shared s) = Stats.zero
  /\ progress (shared s) = 0%float.

(** [ok] holds of every action of [acts] when its turn comes. *)
Fixpoint Along (wordlist : list jsstring) (clock : nat -> jsstring)
    (abortMessage : jsstring) (ok : Action -> Session -> Prop)
    (acts : list Action) (s : Session) : Prop :=
  match acts with
  | [] => True
  | a :: acts' =>
      ok a s /\ Along wordlist clock abortMessage ok acts'
                     (act wordlist clock abortMessage a s)
  end.

(** A property [G] of the component and a property [K] of every
    invocation. *)
Definition Kept (G : Component -> Prop) (K : Call -> Prop) (s : Session)
  : Prop :=
  G (shared s) /\ Forall K (calls s).

(** The machine of one scan as a session with that one invocation, all of
    whose requests carry the current signal. *)
Definition alone (current : nat) (m : Machine) : Session :=
  {| shared := ui m;
     controllers := current;
     calls := [{| call_frame := frame m;
                  call_at := at_ m;
                  call_signal := current |}] |}.

(** An event of one scan as an action on that session. *)
Definition asAction (ev : Event) : Action :=
  match ev with
  | StopClicked => ClickStop
  | PauseClicked => ClickPause
  | _ => Resume 0 ev
  end.

(* ================================================================== *)
(** * Properties *)

(** ** Strings *)

Section StringFacts.

Lemma eqb_eq (s t : jsstring) : eqb s t = true <-> s = t.
Proof.
  revert t; induction s as [|c s IH]; intros [|d t]; simpl;
    try (split; [discriminate | congruence]); try tauto.
  rewrite andb_true_iff, N.eqb_eq, IH.
  split; [intros [-> ->]; reflexivity | intros [= -> ->]; auto].
Qed.

Lemma eqb_refl (s : jsstring) : eqb s s = true.
Proof. apply eqb_eq; reflexivity. Qed.

Lemma startsWith_iff (s p : jsstring) :
  startsWith s p = true <-> exists rest, s = p ++ rest.
Proof.
  unfold startsWith.
  destruct (Nat.ltb_spec (length s) (length p)) as [Hlt|Hle].
  - split; [discriminate|].
    intros [rest ->]. rewrite length_app in Hlt. lia.
  - rewrite eqb_eq. split.
    + intros H. exists (skipn (length p) s).
      pose proof (firstn_skipn (length p) s) as E.
      rewrite H in E. auto.
    + intros [rest ->]. rewrite firstn_app, Nat.sub_diag, firstn_all.
      simpl. apply app_nil_r.
Qed.

Lemma endsWith_iff (s p : jsstring) :
  endsWith s p = true <-> exists body, s = body ++ p.
Proof.
  unfold endsWith.
  destruct (Nat.ltb_spec (length s) (length p)) as [Hlt|Hle].
  - split; [discriminate|].
    intros [body ->]. rewrite length_app in Hlt. lia.
  - rewrite eqb_eq. split.
    + intros H. exists (firstn (length s - length p) s).
      pose proof (firstn_skipn (length s - length p) s) as E.
      rewrite H in E. auto.
    + intros [body ->]. rewrite length_app.
      replace (length body + length p - length p) with (length body + 0) by lia.
      rewrite skipn_app, Nat.add_0_r, skipn_all.
      replace (length body - length body) with 0 by lia. reflexivity.
Qed.

Lemma endsWith_false_iff (s p : jsstring) :
  endsWith s p = false <-> forall body, s <> body ++ p.
Proof.
  split.
  - intros H body E.
    assert (endsWith s p = true) by (apply endsWith_iff; eauto). congruence.
  - intros H. destruct (endsWith s p) eqn:E; [|reflexivity].
    apply endsWith_iff in E as [body E]. destruct (H _ E).
Qed.

(** [slice(0, -1)] drops the last code unit. *)
Lemma slice_drop_last (body : jsstring) (c : codeunit) :
  slice (body ++ [c]) 0 (-1) = body.
Proof.
  unfold slice. rewrite length_app. simpl length.
  change (0 <? 0)%Z with false. change (-1 <? 0)%Z with true. cbv iota.
  rewrite Z.min_l by lia. rewrite Z.max_l by lia.
  destruct (Z.geb_spec 0 (Z.of_nat (length body + 1) + -1)) as [H|H].
  - destruct body; [reflexivity | simpl length in H; lia].
  - change (Z.to_nat 0) with 0. simpl skipn.
    replace (Z.to_nat (Z.of_nat (length body + 1) + -1 - 0))
      with (length body + 0) by lia.
    rewrite firstn_app_2. simpl. apply app_nil_r.
Qed.

(** Inside a longer string, the end is the end of the last part. *)
Lemma ends_in_tail (p s body : jsstring) (c : codeunit) :
  s <> [] -> p ++ s = body ++ [c] ->
  exists s', s = s' ++ [c] /\ body = p ++ s'.
Proof.
  intros Hs E. destruct (exists_last Hs) as (s' & x & ->).
  rewrite app_assoc in E. apply app_inj_tail in E as [<- <-]. eauto.
Qed.

End StringFacts.

(** ** Target resolver *)

Section Resolver.

Lemma startsWith_qualified (s : jsstring) :
  SchemeQualified s <->
  startsWith s (lit "http://") = true \/ startsWith s (lit "https://") = true.
Proof.
  rewrite !startsWith_iff. split.
  - intros [rest|rest]; eauto.
  - intros [[rest ->]|[rest ->]]; constructor.
Qed.

Lemma endsWith_app_separator (p s : jsstring) :
  s <> [] -> endsWith (p ++ s) (lit "/") = endsWith s (lit "/").
Proof.
  intros Hs. destruct (endsWith s (lit "/")) eqn:E.
  - apply endsWith_iff in E as [body ->]. apply endsWith_iff.
    exists (p ++ body). apply app_assoc.
  - apply endsWith_false_iff. intros body Hb.
    apply ends_in_tail in Hb as (s' & -> & _); [|assumption].
    rewrite endsWith_false_iff in E. apply (E s'). reflexivity.
Qed.

Lemma StripOne_functional (s a b : jsstring) :
  StripOne s a -> StripOne s b -> a = b.
Proof.
  intros Ha Hb. destruct Ha as [body|s Hno].
  - inversion Hb as [body' E|s' Hno' E]; subst.
    + apply app_inj_tail in E as [E _]. auto.
    + destruct (Hno' body). reflexivity.
  - inversion Hb as [body' E|s' Hno' E]; subst; [|reflexivity].
    destruct (Hno b). reflexivity.
Qed.

(** [Resolve] determines the base URL. *)
Lemma Resolve_functional (s a b : jsstring) :
  Resolve s a -> Resolve s b -> a = b.
Proof.
  intros Ha Hb.
  destruct Ha as [s a Hs Ha|s a Hs Ha];
    inversion Hb as [s' b' Hs' Hb' E|s' b' Hs' Hb' E]; subst;
    try contradiction; f_equal; eapply StripOne_functional; eauto.
Qed.

Lemma StripOne_total (s : jsstring) :
  StripOne s (if endsWith s (lit "/") then slice s 0 (-1) else s).
Proof.
  destruct (endsWith s (lit "/")) eqn:E.
  - apply endsWith_iff in E as [body ->].
    change (lit "/") with [47%N]. rewrite slice_drop_last. constructor.
  - constructor. apply endsWith_false_iff, E.
Qed.

(** On a non-empty input [normalizeUrl] is the resolver of the
    specification. *)
Lemma normalizeUrl_Resolve (rawInput : jsstring) :
  rawInput <> [] -> Resolve rawInput (normalizeUrl rawInput).
Proof.
  intros Hne. unfold normalizeUrl.
  destruct (negb (startsWith rawInput (lit "http://"))
            && negb (startsWith rawInput (lit "https://"))) eqn:Hs.
  - apply andb_true_iff in Hs as [H1 H2].
    apply negb_true_iff in H1, H2.
    assert (Hq : ~ SchemeQualified rawInput).
    { rewrite startsWith_qualified. intros [H|H]; congruence. }
    rewrite endsWith_app_separator by assumption.
    pose proof (StripOne_total rawInput) as Hstrip.
    destruct (endsWith rawInput (lit "/")) eqn:E.
    + apply endsWith_iff in E as [body ->].
      change (lit "/") with [47%N] in *.
      rewrite app_assoc, !slice_drop_last in *.
      apply resolve_bare; assumption.
    + apply resolve_bare; assumption.
  - apply resolve_qualified; [|apply StripOne_total].
    apply startsWith_qualified.
    apply andb_false_iff in Hs as [H|H]; apply negb_false_iff in H; auto.
Qed.

Lemma normalizeUrl_strips (rawInput : jsstring) :
  rawInput <> [] ->
  exists out, StripOne rawInput out
    /\ (normalizeUrl rawInput = lit "https://" ++ out
        \/ normalizeUrl rawInput = out).
Proof.
  intros Hne. pose proof (normalizeUrl_Resolve Hne) as HR.
  destruct HR as [s out Hq Ho|s out Hq Ho]; eauto.
Qed.

(** Of several trailing separators all but one stay. *)
Lemma normalizeUrl_keeps_extra_separators (rawInput : jsstring) :
  endsWith rawInput (lit "//") = true ->
  endsWith (normalizeUrl rawInput) (lit "/") = true.
Proof.
  intros H. apply endsWith_iff in H as [body ->].
  assert (Hne : body ++ lit "//" <> []) by (destruct body; discriminate).
  assert (Hs : StripOne (body ++ lit "//") (body ++ lit "/")).
  { change (lit "//") with (lit "/" ++ lit "/"). rewrite app_assoc.
    constructor. }
  destruct (normalizeUrl_strips Hne) as (out & Ho & [E|E]);
    rewrite E, (StripOne_functional Ho Hs); apply endsWith_iff.
  - exists (lit "https://" ++ body). apply app_assoc.
  - eauto.
Qed.

End Resolver.

(** C5.  On every non-empty raw input the resolver puts [https://] in front
    exactly when the input has no recognised scheme, and removes exactly one
    trailing separator when the input has one; it maps [example.com] to
    [https://example.com] and [http://example.com/] to
    [http://example.com]. *)
Theorem normalizeUrl_resolves (rawInput : jsstring) (Hne : rawInput <> []) :
  Resolve rawInput (normalizeUrl rawInput)
  /\ (forall base, Resolve rawInput base -> base = normalizeUrl rawInput)
  /\ normalizeUrl (lit "example.com") = lit "https://example.com"
  /\ normalizeUrl (lit "http://example.com/") = lit "http://example.com".
Proof.
  pose proof (normalizeUrl_Resolve Hne) as HR.
  split; [exact HR|]. split; [|split; reflexivity].
  intros base Hb. exact (Resolve_functional Hb HR).
Qed.

Lemma normalizeUrl_resolves_witness :
  lit "http://example.com/" <> []
  /\ Resolve (lit "http://example.com/") (lit "http://example.com").
Proof.
  split; [discriminate|].
  exact (proj1 (@normalizeUrl_resolves (lit "http://example.com/")
                  ltac:(discriminate))).
Defined.

(** C9, as stated, fails: an input with two trailing separators resolves to
    a base URL that still ends with one. *)
Lemma normalizeUrl_trailing_separator_counterexample :
  lit "example.com//" <> []
  /\ normalizeUrl (lit "example.com//") = lit "https://example.com/"
  /\ endsWith (normalizeUrl (lit "example.com//")) (lit "/") = true.
Proof. split; [discriminate|]. split; reflexivity. Qed.

(** C9, amended.  On every non-empty raw input other than the lone
    separator that does not end with two separators, the base URL does not
    end with a separator. *)
Theorem normalizeUrl_no_trailing_separator (rawInput : jsstring)
    (Hne : rawInput <> []) (Hlone : rawInput <> lit "/")
    (Hone : endsWith rawInput (lit "//") = false) :
  endsWith (normalizeUrl rawInput) (lit "/") = false.
Proof.
  assert (Hbody : forall body, rawInput = body ++ lit "/" ->
                    body <> [] /\ endsWith body (lit "/") = false).
  { intros body ->. split; [intros ->; apply Hlone; reflexivity|].
    apply endsWith_false_iff. intros b ->.
    rewrite endsWith_false_iff in Hone. apply (Hone b).
    rewrite <- app_assoc. reflexivity. }
  destruct (normalizeUrl_strips Hne) as (out & Ho & E).
  assert (Hout : out <> [] /\ endsWith out (lit "/") = false).
  { inversion Ho as [body Eb|s Hno Eb]; subst; auto.
    split; [assumption|]. apply endsWith_false_iff, Hno. }
  destruct Hout as [Ho1 Ho2], E as [E|E]; rewrite E.
  - rewrite endsWith_app_separator; assumption.
  - assumption.
Qed.

Lemma normalizeUrl_no_trailing_separator_witness :
  endsWith (normalizeUrl (lit "http://example.com/")) (lit "/") = false.
Proof.
  apply (@normalizeUrl_no_trailing_separator (lit "http://example.com/"));
    [discriminate | discriminate | reflexivity].
Defined.

(** ** The probe *)

Section Probe.

Variables (baseUrl path now : jsstring).

Lemma checkPath_fulfilled :
  checkPath baseUrl path Fulfilled now
  = Return (Result.mk path (baseUrl ++ lit "/" ++ path)
                      (lit "Unknown (CORS)") true now).
Proof. reflexivity. Qed.

Lemma checkPath_rejected (error : JsError) :
  checkPath baseUrl path (Rejected error) now
  = if eqb (name error) (lit "AbortError") then Throw error
    else Return (Result.mk path (baseUrl ++ lit "/" ++ path)
                           (message error) false now).
Proof. reflexivity. Qed.

Lemma checkPath_failed (reason : jsstring) :
  checkPath baseUrl path (Rejected (typeError reason)) now
  = Return (Result.mk path (baseUrl ++ lit "/" ++ path) reason false now).
Proof. reflexivity. Qed.

Lemma checkPath_aborted (abortMessage : jsstring) :
  checkPath baseUrl path (Rejected (abortError abortMessage)) now
  = Throw (abortError abortMessage).
Proof. reflexivity. Qed.

End Probe.

(** C10.  [checkPath] throws exactly when the request was rejected with an
    [AbortError], and then rethrows that error; in every other case it
    returns a record for the path and the URL [base/path] it was given.  So
    the [catch] of the loop only ever sees an [AbortError], and leaves the
    loop. *)
Theorem checkPath_throws_only_abort
    (baseUrl path now : jsstring) (settled : FetchOutcome) :
  (forall error,
      checkPath baseUrl path settled now = Throw error
      <-> settled = Rejected error /\ name error = lit "AbortError")
  /\ match checkPath baseUrl path settled now with
     | Return result =>
         Result.path result = path
         /\ Result.url result = baseUrl ++ lit "/" ++ path
     | Throw error => name error = lit "AbortError"
     end
  /\ (forall wordlist next c f,
        afterCheckPath wordlist next (checkPath baseUrl path settled now) c f
        = match checkPath baseUrl path settled now with
          | Return result => recordResult wordlist result c f
          | Throw _ => exitLoop c f
          end).
Proof.
  destruct settled as [|e].
  - rewrite checkPath_fulfilled. split; [|split; [split|]]; try reflexivity.
    intros error; split; [discriminate | intros [H _]; discriminate].
  - rewrite checkPath_rejected.
    destruct (eqb (name e) (lit "AbortError")) eqn:E.
    + pose proof (proj1 (eqb_eq _ _) E) as En.
      split; [|split]; trivial.
      * intros error; split.
        -- intros [= ->]; auto.
        -- intros [[= ->] _]; reflexivity.
      * intros; simpl. unfold catchError. rewrite E. reflexivity.
    + split; [|split; [split|]]; try reflexivity.
      intros error; split; [discriminate|].
      intros [[= ->] H]. apply eqb_eq in H. congruence.
Qed.

(** ** The scan loop *)

Section ScanFacts.

Variable wordlist : list jsstring.
Variable clock : nat -> jsstring.
Variable abortMessage : jsstring.

Local Abbreviation Loop := (loop wordlist clock abortMessage).
Local Abbreviation Step := (step wordlist clock abortMessage).
Local Abbreviation Run := (run wordlist clock abortMessage).
Local Abbreviation StartScan := (startScan wordlist clock abortMessage).

(** The loop condition and the two checks at the head of the body decide
    where an iteration goes; a request issued from the head of the loop is
    always in flight, since the signal was just seen not aborted. *)
Lemma loop_unfold (c : Component) (f : Frame) :
  Loop c f
  = if (i f <? length wordlist)%nat then
      if signalAborted c then exitLoop c f
      else if closure_isPaused f
           then {| ui := c; frame := f; at_ := AwaitPause |}
           else {| ui := c; frame := f; at_ := AwaitFetch |}
    else exitLoop c f.
Proof.
  unfold loop.
  pose proof (length_skipn (i f) wordlist) as Hlen.
  destruct (skipn (i f) wordlist) as [|path rest];
    destruct (Nat.ltb_spec (i f) (length wordlist)) as [Hlt|Hge];
    simpl in Hlen; try lia; try reflexivity.
  simpl. unfold probe, fetch.
  destruct (signalAborted c); reflexivity.
Qed.

(** The candidate at the head of what [loopFrom] still has to visit is
    [commonPaths[i]], and the rest is what the next iteration visits. *)
Lemma loopFrom_candidate (f : Frame) (path : jsstring) (rest : list jsstring) :
  skipn (i f) wordlist = path :: rest ->
  path = candidate wordlist f /\ rest = skipn (i (incrI f)) wordlist.
Proof.
  unfold candidate. simpl. generalize (i f) as k.
  induction wordlist as [|w l IH]; intros k H.
  - destruct k; discriminate.
  - destruct k as [|k]; simpl in H.
    + injection H as <- <-. auto.
    + apply IH, H.
Qed.

(** A request issued when the signal is already aborted ends the loop. *)
Lemma probe_aborted next path c f :
  signalAborted c = true ->
  probe wordlist clock abortMessage next path c f = exitLoop c f.
Proof. intros H. unfold probe, fetch. rewrite H. reflexivity. Qed.

Lemma probe_in_flight next path c f :
  signalAborted c = false ->
  probe wordlist clock abortMessage next path c f
  = {| ui := c; frame := f; at_ := AwaitFetch |}.
Proof. intros H. unfold probe, fetch. rewrite H. reflexivity. Qed.

(** *** The state stays consistent *)

Local Arguments firstn : simpl never.

Lemma firstn_snoc (l : list jsstring) (d : jsstring) (k : nat) :
  k < length l -> firstn (S k) l = firstn k l ++ [nth k l d].
Proof.
  revert k. induction l as [|w l IH]; intros k Hk; [simpl in Hk; lia|].
  destruct k as [|k]; [reflexivity|]. simpl in Hk.
  change (w :: firstn (S k) l = w :: (firstn k l ++ [nth k l d])).
  f_equal. apply IH. lia.
Qed.

Lemma Tallied_exit c f :
  Tallied wordlist c f ->
  Tallied wordlist (setIsPaused false (setIsScanning false c)) f.
Proof. intros []; constructor; simpl; auto. Qed.

Lemma Tallied_stop c f :
  Tallied wordlist c f ->
  Tallied wordlist (stopScan c) f /\ signalAborted (stopScan c) = true.
Proof.
  intros []. unfold stopScan, signalAborted in *.
  destruct (abortControllerRef c) eqn:E; [|congruence].
  split; [constructor|]; simpl; auto; discriminate.
Qed.

Lemma Tallied_toggle c f :
  Tallied wordlist c f -> Tallied wordlist (togglePause c) f.
Proof. intros []; constructor; simpl; auto. Qed.

Lemma Tallied_record c f status found now :
  Tallied wordlist c f ->
  i f = length (results c) -> i f < length wordlist ->
  let m := recordResult wordlist
             (Result.mk (candidate wordlist f)
                        (baseUrl f ++ lit "/" ++ candidate wordlist f)
                        status found now) c f in
  Tallied wordlist (ui m) (frame m).
Proof.
  intros [] Hi Hlt. unfold recordResult.
  destruct found; constructor; simpl; auto; try lia;
    try (rewrite <- inv_stats0; simpl; lia);
    try (unfold candidate;
         rewrite (firstn_snoc wordlist (lit "undefined")) by lia;
         rewrite rev_app_distr, <- inv_paths0, Hi; reflexivity).
Qed.

Lemma Tallied_incrI c f :
  Tallied wordlist c f -> Tallied wordlist c (incrI f).
Proof. intros []; constructor; simpl; auto. Qed.

Lemma exitLoop_Consistent c f :
  Tallied wordlist c f ->
  signalAborted c = true \/ length (results c) = length wordlist ->
  Consistent wordlist (exitLoop c f).
Proof.
  intros HT H. split; [apply Tallied_exit, HT|].
  split; [reflexivity | exact H].
Qed.

Lemma loop_Consistent c f :
  Tallied wordlist c f -> i f = length (results c) ->
  Consistent wordlist (Loop c f).
Proof.
  intros HT Hi. rewrite loop_unfold.
  destruct (Nat.ltb_spec (i f) (length wordlist)) as [Hlt|Hge].
  - destruct (signalAborted c) eqn:Hs;
      [apply exitLoop_Consistent; auto|].
    destruct (closure_isPaused f) eqn:Hp; (split; [exact HT|]);
      unfold Placed; simpl; auto.
  - apply exitLoop_Consistent; [assumption|].
    right. pose proof (inv_bound HT). lia.
Qed.

Lemma step_Consistent (ev : Event) (m : Machine) :
  Consistent wordlist m -> Consistent wordlist (Step ev m).
Proof.
  destruct m as [c f a]. intros [HT HP]. unfold Placed in HP.
  simpl in HT, HP.
  destruct (Tallied_stop HT) as [HTs Hs].
  assert (Hrs : results (stopScan c) = results c)
    by (unfold stopScan; destruct (abortControllerRef c); reflexivity).
  destruct ev, a; unfold step; cbn [ui frame at_];
    try (split; [exact HT | exact HP]);
    try (split; [apply Tallied_toggle, HT | exact HP]).
  - (* a response arrives *)
    destruct HP as (Hi & Hlt & Ha).
    split; [apply Tallied_record; assumption|].
    unfold Placed; simpl. lia.
  - (* the request fails *)
    destruct HP as (Hi & Hlt & Ha).
    split; [apply Tallied_record; assumption|].
    unfold Placed; simpl. lia.
  - (* the interval fires during the pause wait *)
    destruct HP as (Hi & Hlt & Hp). rewrite Hp. simpl.
    destruct (signalAborted c) eqn:Ha.
    + rewrite probe_aborted by assumption.
      apply exitLoop_Consistent; auto.
    + split; [exact HT | unfold Placed; simpl; auto].
  - (* the delay is over *)
    apply loop_Consistent; [apply Tallied_incrI, HT | simpl; lia].
  - (* stop, in the pause wait *)
    split; [exact HTs|]. unfold Placed; cbn [ui frame at_].
    rewrite Hrs. exact HP.
  - (* stop, with a request in flight *)
    destruct HP as (Hi & Hlt & Ha). rewrite Ha, Hs. simpl.
    apply exitLoop_Consistent; auto.
  - (* stop, in the delay *)
    split; [exact HTs|]. unfold Placed; cbn [ui frame at_].
    rewrite Hrs. exact HP.
  - (* stop, after the end *)
    split; [exact HTs|]. unfold Placed; cbn [ui frame at_].
    split; [reflexivity | left; exact Hs].
Qed.

Lemma run_Consistent (evs : list Event) (m : Machine) :
  Consistent wordlist m -> Consistent wordlist (Run evs m).
Proof.
  revert m. induction evs as [|ev evs IH]; intros m H; simpl; [exact H|].
  apply IH, step_Consistent, H.
Qed.

Lemma startScan_Consistent (c : Component) (m0 : Machine) :
  StartScan c = Scanning m0 -> Consistent wordlist m0.
Proof.
  unfold startScan. destruct (isEmpty (trim (targetUrl c))); [discriminate|].
  intros [= <-]. apply loop_Consistent; [|reflexivity].
  constructor; simpl; auto; try lia; discriminate.
Qed.

(** *** What one event changes *)

Lemma loop_ui (c : Component) (f : Frame) :
  results (ui (Loop c f)) = results c
  /\ stats (ui (Loop c f)) = stats c
  /\ signalAborted (ui (Loop c f)) = signalAborted c
  /\ frame (Loop c f) = f.
Proof.
  rewrite loop_unfold.
  destruct (i f <? length wordlist)%nat, (signalAborted c) eqn:E,
    (closure_isPaused f); simpl; auto.
Qed.

(** Results and tally move together: an event leaves both alone, or adds
    one record and one to the counter the record's flag selects. *)
Lemma step_lockstep (ev : Event) (m : Machine) :
  Consistent wordlist m ->
  (results (ui (Step ev m)) = results (ui m)
   /\ stats (ui (Step ev m)) = stats (ui m))
  \/ (exists r,
        results (ui (Step ev m)) = r :: results (ui m)
        /\ stats (ui (Step ev m))
           = (if Result.found r then Stats.incrFound (stats (ui m))
              else Stats.incrNotFound (stats (ui m)))
        /\ at_ m = AwaitFetch /\ at_ (Step ev m) = AwaitDelay).
Proof.
  destruct m as [c f a]. intros [HT HP]. unfold Placed in HP.
  cbn [ui frame at_] in HT, HP.
  assert (Hstop : results (stopScan c) = results c
                  /\ stats (stopScan c) = stats c)
    by (unfold stopScan; destruct (abortControllerRef c); auto).
  destruct (Tallied_stop HT) as [_ Hs].
  destruct ev, a; unfold step; cbn [ui frame at_]; auto;
    try (right; eexists; rewrite (inv_stats HT); simpl; eauto; fail).
  - destruct HP as (_ & _ & ->). simpl.
    destruct (signalAborted c) eqn:Ha; [|auto].
    rewrite probe_aborted by assumption. auto.
  - left. unfold nextIteration.
    destruct (loop_ui c (incrI f)) as (-> & -> & _). auto.
  - destruct HP as (_ & _ & Ha). rewrite Ha, Hs. simpl. auto.
Qed.

(** Only the stop button aborts the signal. *)
Lemma step_signal (ev : Event) (m : Machine) :
  ev <> StopClicked ->
  signalAborted (ui (Step ev m)) = signalAborted (ui m).
Proof.
  destruct m as [c f a]. intros Hev.
  destruct ev, a; unfold step; cbn [ui frame at_]; try reflexivity;
    try congruence.
  - destruct (negb (closure_isPaused f) || signalAborted c);
      [|reflexivity].
    unfold probe, fetch. destruct (signalAborted c) eqn:E; auto.
  - unfold nextIteration. apply loop_ui.
Qed.

Lemma run_signal (evs : list Event) (m : Machine) :
  stopRequested evs = false ->
  signalAborted (ui (Run evs m)) = signalAborted (ui m).
Proof.
  revert m. induction evs as [|ev evs IH]; intros m H; [reflexivity|].
  simpl in H. apply orb_false_iff in H as [Hev H].
  simpl. rewrite IH by assumption. apply step_signal.
  intros ->. discriminate.
Qed.

(** Once the signal is aborted the results are final, the component shows
    no scan, and the loop only waits for its pending timer to leave. *)
Lemma step_after_abort (ev : Event) (m : Machine) :
  Consistent wordlist m -> signalAborted (ui m) = true ->
  results (ui (Step ev m)) = results (ui m)
  /\ signalAborted (ui (Step ev m)) = true
  /\ match at_ m, ev with
     | Returned, _ | AwaitDelay, DelayElapsed | AwaitPause, Tick =>
         at_ (Step ev m) = Returned
     | a, _ => at_ (Step ev m) = a
     end.
Proof.
  destruct m as [c f a]. intros [HT HP] Ha. unfold Placed in HP.
  cbn [ui frame at_] in HT, HP, Ha.
  assert (Hstop : results (stopScan c) = results c)
    by (unfold stopScan; destruct (abortControllerRef c); auto).
  destruct (Tallied_stop HT) as [_ Hs].
  destruct a; try (destruct HP as (_ & _ & HP); congruence);
    destruct ev; unfold step; cbn [ui frame at_]; auto.
  - rewrite Ha, orb_true_r, probe_aborted by assumption. auto.
  - unfold nextIteration. rewrite loop_unfold, Ha. simpl.
    destruct (S (i f) <? length wordlist)%nat; auto.
Qed.

Lemma run_after_abort (evs : list Event) (m : Machine) :
  Consistent wordlist m -> signalAborted (ui m) = true ->
  results (ui (Run evs m)) = results (ui m)
  /\ signalAborted (ui (Run evs m)) = true
  /\ (pendingTimerFired (at_ m) evs = true -> at_ (Run evs m) = Returned).
Proof.
  revert m. induction evs as [|ev evs IH]; intros m HC Ha.
  - simpl. repeat split; auto. destruct HC as [_ HP]. unfold Placed in HP.
    destruct (at_ m); simpl; try congruence.
    destruct HP as (_ & _ & HP). congruence.
  - destruct (step_after_abort ev HC Ha) as (Hr & Ha' & Hat).
    destruct (IH _ (step_Consistent ev HC) Ha') as (Hr' & Ha'' & Hat').
    simpl. rewrite Hr', Hr. repeat split; auto.
    intros Hfired. apply Hat'.
    destruct (at_ m), ev; simpl in Hfired; rewrite Hat; auto.
Qed.

(** The stop button: the signal is aborted, a request in flight is
    rejected and takes the loop out, a timer keeps running. *)
Lemma step_stop (m : Machine) :
  Consistent wordlist m ->
  results (ui (Step StopClicked m)) = results (ui m)
  /\ signalAborted (ui (Step StopClicked m)) = true
  /\ at_ (Step StopClicked m)
     = match at_ m with AwaitFetch => Returned | a => a end.
Proof.
  destruct m as [c f a]. intros [HT HP]. unfold Placed in HP.
  cbn [ui frame at_] in HT, HP.
  assert (Hstop : results (stopScan c) = results c)
    by (unfold stopScan; destruct (abortControllerRef c); auto).
  destruct (Tallied_stop HT) as [_ Hs].
  destruct a; unfold step; cbn [ui frame at_]; auto.
  destruct HP as (_ & _ & Ha). rewrite Ha, Hs. simpl. auto.
Qed.

(** A settled request, seen from the loop. *)
Lemma step_settled (ev : Event) (m : Machine) :
  Consistent wordlist m -> at_ m = AwaitFetch ->
  forall settled,
    match ev with
    | FetchResponded => settled = Fulfilled
    | FetchFailed reason => settled = Rejected (typeError reason)
    | _ => False
    end ->
    exists r,
      checkPath (baseUrl (frame m)) (candidate wordlist (frame m)) settled
                (clock (i (frame m))) = Return r
      /\ Step ev m = recordResult wordlist r (ui m) (frame m)
      /\ results (ui (Step ev m)) = r :: results (ui m)
      /\ stats (ui (Step ev m))
         = (if Result.found r then Stats.incrFound (stats (ui m))
            else Stats.incrNotFound (stats (ui m)))
      /\ at_ (Step ev m) = AwaitDelay.
Proof.
  destruct m as [c f a]. intros [HT _] Hat settled Hev.
  cbn [ui frame at_] in *. subst a.
  destruct ev; try contradiction; subst settled;
    eexists; unfold step; cbn [ui frame at_];
    (split; [reflexivity|]); simpl; rewrite (inv_stats HT); auto.
Qed.

(** A response and the delay after it take the loop to the next
    candidate, or out when there is none. *)
Lemma step_round (m : Machine) :
  Consistent wordlist m -> at_ m = AwaitFetch ->
  signalAborted (ui m) = false -> closure_isPaused (frame m) = false ->
  let m' := Step DelayElapsed (Step FetchResponded m) in
  closure_isPaused (frame m') = false
  /\ i (frame m') = S (i (frame m))
  /\ at_ m' = if (S (i (frame m)) <? length wordlist)%nat
              then AwaitFetch else Returned.
Proof.
  intros HC Hat Ha Hp.
  destruct (step_settled FetchResponded HC Hat Fulfilled eq_refl)
    as (r & _ & -> & _).
  destruct m as [c f a]. cbn [ui frame at_] in *.
  unfold recordResult, step. cbn [ui frame at_].
  unfold nextIteration. rewrite loop_unfold.
  destruct (Result.found r); simpl;
    change (signalAborted _) with (signalAborted c); rewrite Ha, Hp;
    destruct (S (i f) <? length wordlist)%nat; auto.
Qed.

(** The base URL is computed once. *)
Lemma step_baseUrl (ev : Event) (m : Machine) :
  baseUrl (frame (Step ev m)) = baseUrl (frame m).
Proof.
  destruct m as [c f a].
  destruct ev, a; unfold step; cbn [ui frame at_]; try reflexivity.
  - destruct (negb (closure_isPaused f) || signalAborted c);
      [|reflexivity].
    unfold probe, fetch. destruct (signalAborted c); reflexivity.
  - unfold nextIteration.
    destruct (loop_ui c (incrI f)) as (_ & _ & _ & ->). reflexivity.
  - destruct (negb (signalAborted c) && signalAborted (stopScan c));
      reflexivity.
Qed.

Lemma run_baseUrl (evs : list Event) (m : Machine) :
  baseUrl (frame (Run evs m)) = baseUrl (frame m).
Proof.
  revert m. induction evs as [|ev evs IH]; intros m; [reflexivity|].
  simpl. rewrite IH. apply step_baseUrl.
Qed.

Lemma startScan_baseUrl (c : Component) (m0 : Machine) :
  StartScan c = Scanning m0 ->
  baseUrl (frame m0) = normalizeUrl (targetUrl c)
  /\ signalAborted (ui m0) = false.
Proof.
  unfold startScan. destruct (isEmpty (trim (targetUrl c))); [discriminate|].
  intros [= <-].
  match goal with |- context [Loop ?c' ?f'] =>
    destruct (loop_ui c' f') as (_ & _ & -> & ->) end.
  split; reflexivity.
Qed.

(** Every state of a started scan is consistent. *)
Lemma scan_Consistent (c : Component) (m0 : Machine) (evs : list Event) :
  StartScan c = Scanning m0 -> Consistent wordlist (Run evs m0).
Proof. intros H. apply run_Consistent, (startScan_Consistent _ H). Qed.

End ScanFacts.

(** ** Starting a scan *)

Section Blank.

Lemma trimStart_empty_iff (s : jsstring) :
  trimStart s = [] <-> forallb isWhiteSpace s = true.
Proof.
  induction s as [|ch s IH]; simpl; [tauto|].
  destruct (isWhiteSpace ch); simpl; [exact IH|].
  split; discriminate.
Qed.

Lemma trimStart_idempotent (s : jsstring) :
  trimStart (trimStart s) = trimStart s.
Proof.
  induction s as [|ch s IH]; simpl; [reflexivity|].
  destruct (isWhiteSpace ch) eqn:E; [exact IH|].
  simpl. rewrite E. reflexivity.
Qed.

Lemma forallb_rev (p : codeunit -> bool) (s : jsstring) :
  forallb p (rev s) = forallb p s.
Proof.
  induction s as [|ch s IH]; simpl; [reflexivity|].
  rewrite forallb_app, IH. simpl. rewrite andb_true_r. apply andb_comm.
Qed.

(** [trim] leaves nothing exactly of the strings made of white space
    only, the empty string among them. *)
Lemma trim_empty_iff (s : jsstring) :
  isEmpty (trim s) = true <-> forallb isWhiteSpace s = true.
Proof.
  rewrite <- trimStart_empty_iff. unfold trim, trimEnd. split.
  - intros H.
    destruct (rev (trimStart (rev (trimStart s)))) eqn:E; [|discriminate].
    apply (f_equal (@rev codeunit)) in E. rewrite rev_involutive in E.
    simpl in E. apply trimStart_empty_iff in E.
    rewrite forallb_rev in E. apply trimStart_empty_iff in E.
    rewrite trimStart_idempotent in E. exact E.
  - intros ->. reflexivity.
Qed.

End Blank.

(** C6.  With an empty or white-space-only target, [startScan] reports the
    problem (the alert) and returns at once: the component is as it was and
    no request has been issued. *)
Theorem startScan_blank_target
    (wordlist : list jsstring) (clock : nat -> jsstring)
    (abortMessage : jsstring) (c : Component)
    (Hblank : forallb isWhiteSpace (targetUrl c) = true) :
  startScan wordlist clock abortMessage c
  = Alerted (lit "Please enter a target URL") c.
Proof.
  unfold startScan. apply trim_empty_iff in Hblank. rewrite Hblank.
  reflexivity.
Qed.

Lemma startScan_blank_target_witness :
  startScan commonPaths sampleClock sampleAbortMessage (idle (lit "   "))
  = Alerted (lit "Please enter a target URL") (idle (lit "   ")).
Proof.
  apply (@startScan_blank_target commonPaths sampleClock sampleAbortMessage
           (idle (lit "   "))).
  reflexivity.
Defined.

(** Any other target starts the scan. *)
Lemma startScan_started
    (wordlist : list jsstring) (clock : nat -> jsstring)
    (abortMessage : jsstring) (c : Component) :
  forallb isWhiteSpace (targetUrl c) = false ->
  exists m0, startScan wordlist clock abortMessage c = Scanning m0.
Proof.
  intros H. unfold startScan.
  destruct (isEmpty (trim (targetUrl c))) eqn:E; [|eauto].
  apply trim_empty_iff in E. congruence.
Qed.

(** ** Completed scans *)

(** C1, as stated, fails: the component's own scan of [example.com], every
    request answered, ends with one result per candidate, but the result at
    index 0 is the last candidate, not the first. *)
Lemma completed_scan_order_counterexample :
  exists m0,
    startScan commonPaths sampleClock sampleAbortMessage
              (idle (lit "example.com")) = Scanning m0
    /\ stopRequested (allRespond 69) = false
    /\ at_ (run commonPaths sampleClock sampleAbortMessage
                (allRespond 69) m0) = Returned
    /\ nth_error
         (map Result.path
              (results (ui (run commonPaths sampleClock sampleAbortMessage
                                (allRespond 69) m0)))) 0
       = Some (lit "LICENSE")
    /\ nth_error commonPaths 0 = Some (lit "admin").
Proof.
  eexists. split; [reflexivity|]. vm_compute. repeat split; reflexivity.
Qed.

(** One invocation alone.  A scan that returns without the stop button
    having been pressed has one result per candidate, newest first: the results
    are the wordlist in reverse, the result at index [k] is for candidate
    [|W| - 1 - k], and each result's URL is the base URL, a separator and the
    candidate. *)
Theorem completed_scan_results
    (wordlist : list jsstring) (clock : nat -> jsstring)
    (abortMessage : jsstring) (c : Component) (m0 : Machine)
    (evs : list Event)
    (Hstart : startScan wordlist clock abortMessage c = Scanning m0)
    (Hnostop : stopRequested evs = false)
    (Hdone : at_ (run wordlist clock abortMessage evs m0) = Returned) :
  let rs := results (ui (run wordlist clock abortMessage evs m0)) in
  length rs = length wordlist
  /\ map Result.path rs = rev wordlist
  /\ (forall k d, k < length wordlist ->
        nth k (map Result.path rs) d = nth (length wordlist - S k) wordlist d)
  /\ Forall (fun r => Result.url r
                      = normalizeUrl (targetUrl c) ++ lit "/" ++ Result.path r)
            rs.
Proof.
  intros rs.
  destruct (@scan_Consistent wordlist clock abortMessage c m0 evs Hstart)
    as [HT HP].
  destruct (@startScan_baseUrl wordlist clock abortMessage c m0 Hstart)
    as [Hbase Hsig].
  unfold Placed in HP. rewrite Hdone in HP. destruct HP as [_ HP].
  rewrite run_signal, Hsig in HP by assumption.
  destruct HP as [HP|HP]; [discriminate|]. fold rs in HP.
  assert (Hpaths : map Result.path rs = rev wordlist).
  { unfold rs. rewrite (inv_paths HT). fold rs. rewrite HP, firstn_all.
    reflexivity. }
  repeat split; trivial.
  - intros k d Hk. rewrite Hpaths. apply rev_nth. exact Hk.
  - rewrite <- Hbase, <- (run_baseUrl wordlist clock abortMessage evs m0).
    exact (inv_urls HT).
Qed.

Lemma completed_scan_results_witness :
  exists m0,
    startScan [lit "admin"; lit "nope"] sampleClock sampleAbortMessage
              (idle (lit "example.com")) = Scanning m0
    /\ map Result.path
           (results (ui (run [lit "admin"; lit "nope"] sampleClock
                             sampleAbortMessage (allRespond 2) m0)))
       = [lit "nope"; lit "admin"].
Proof.
  eexists. split; [reflexivity|].
  exact (proj1 (proj2 (@completed_scan_results
                         [lit "admin"; lit "nope"] sampleClock
                         sampleAbortMessage (idle (lit "example.com")) _
                         (allRespond 2) eq_refl eq_refl eq_refl))).
Defined.

(** Such a scan exists for every wordlist: answer every request. *)
Lemma scan_completes
    (wordlist : list jsstring) (clock : nat -> jsstring)
    (abortMessage : jsstring) (target : jsstring) (m0 : Machine) :
  startScan wordlist clock abortMessage (idle target) = Scanning m0 ->
  at_ (run wordlist clock abortMessage (allRespond (length wordlist)) m0)
  = Returned.
Proof.
  intros Hstart.
  assert (Hgen : forall n m,
             Consistent wordlist m ->
             signalAborted (ui m) = false ->
             closure_isPaused (frame m) = false ->
             (at_ m = AwaitFetch /\ i (frame m) + n = length wordlist
              \/ at_ m = Returned) ->
             at_ (run wordlist clock abortMessage (allRespond n) m)
             = Returned).
  { induction n as [|n IH]; intros m HC Ha Hp Hat.
    - destruct Hat as [[Hat Hi]|Hat]; [|exact Hat].
      destruct HC as [_ HP]. unfold Placed in HP. rewrite Hat in HP. lia.
    - change (run wordlist clock abortMessage (allRespond (S n)) m)
        with (run wordlist clock abortMessage (allRespond n)
                (step wordlist clock abortMessage DelayElapsed
                   (step wordlist clock abortMessage FetchResponded m))).
      apply IH.
      + do 2 apply step_Consistent. exact HC.
      + rewrite !step_signal by discriminate. exact Ha.
      + destruct Hat as [[Hat Hi]|Hat].
        * apply (step_round clock abortMessage HC Hat Ha Hp).
        * destruct m as [mc mf ma]. cbn [at_] in Hat. subst ma. exact Hp.
      + destruct Hat as [[Hat Hi]|Hat].
        * destruct (step_round clock abortMessage HC Hat Ha Hp)
            as (_ & Hi' & Hat').
          rewrite Hat', Hi'.
          destruct (Nat.ltb_spec (S (i (frame m))) (length wordlist));
            [left; split; [reflexivity | lia] | right; reflexivity].
        * destruct m as [mc mf ma]. cbn [at_] in Hat. subst ma. auto. }
  pose proof (@startScan_Consistent wordlist clock abortMessage _ m0 Hstart)
    as HC.
  destruct (@startScan_baseUrl wordlist clock abortMessage _ m0 Hstart)
    as [_ Ha].
  revert Hstart. unfold startScan.
  destruct (isEmpty (trim (targetUrl (idle target)))); [discriminate|].
  intros [= Hm]. apply Hgen; auto.
  - rewrite <- Hm.
    match goal with |- context [loop _ _ _ ?c' ?f'] =>
      destruct (loop_ui wordlist clock abortMessage c' f') as (_ & _ & _ & ->)
    end. reflexivity.
  - rewrite <- Hm, loop_unfold. simpl.
    destruct wordlist; simpl; auto.
Qed.

(** ** The tally *)

(** One invocation alone.  In every state of a scan, suspended or returned,
    the three counters add up to the number of results; and every event
    either leaves results
    and counters alone or adds one record and one to the sum. *)
Theorem tally_matches_results
    (wordlist : list jsstring) (clock : nat -> jsstring)
    (abortMessage : jsstring) (c : Component) (m0 : Machine)
    (evs : list Event)
    (Hstart : startScan wordlist clock abortMessage c = Scanning m0) :
  let m := run wordlist clock abortMessage evs m0 in
  Stats.total (stats (ui m)) = length (results (ui m))
  /\ forall ev,
       let m' := step wordlist clock abortMessage ev m in
       (results (ui m') = results (ui m) /\ stats (ui m') = stats (ui m))
       \/ (exists r,
             results (ui m') = r :: results (ui m)
             /\ Stats.total (stats (ui m')) = S (Stats.total (stats (ui m)))).
Proof.
  intros m.
  pose proof (@scan_Consistent wordlist clock abortMessage c m0 evs Hstart)
    as HC.
  fold m in HC. split.
  - destruct HC as [HT _]. unfold Stats.total.
    rewrite (inv_errors HT), (inv_count HT). lia.
  - intros ev m'.
    destruct (step_lockstep clock abortMessage ev HC)
      as [H|(r & Hr & Hs & _)]; [left; exact H|].
    right. exists r. split; [exact Hr|]. unfold m'. rewrite Hs.
    unfold Stats.total. destruct (Result.found r); simpl; lia.
Qed.

Lemma tally_matches_results_witness :
  exists m0,
    startScan commonPaths sampleClock sampleAbortMessage
              (idle (lit "example.com")) = Scanning m0
    /\ Stats.total
         (stats (ui (run commonPaths sampleClock sampleAbortMessage
                         [FetchResponded; DelayElapsed;
                          FetchFailed (lit "Failed to fetch")] m0)))
       = length
           (results (ui (run commonPaths sampleClock sampleAbortMessage
                             [FetchResponded; DelayElapsed;
                              FetchFailed (lit "Failed to fetch")] m0))).
Proof.
  eexists. split; [reflexivity|].
  exact (proj1 (@tally_matches_results
                  commonPaths sampleClock sampleAbortMessage
                  (idle (lit "example.com")) _
                  [FetchResponded; DelayElapsed;
                   FetchFailed (lit "Failed to fetch")] eq_refl)).
Defined.

(** The error counter never moves. *)
Lemma errors_never_counted
    (wordlist : list jsstring) (clock : nat -> jsstring)
    (abortMessage : jsstring) (c : Component) (m0 : Machine)
    (evs : list Event) :
  startScan wordlist clock abortMessage c = Scanning m0 ->
  Stats.errors (stats (ui (run wordlist clock abortMessage evs m0))) = 0.
Proof.
  intros Hstart.
  destruct (@scan_Consistent wordlist clock abortMessage c m0 evs Hstart)
    as [HT _].
  exact (inv_errors HT).
Qed.

(** ** Responses whose status cannot be read *)




(** ** Requests that fail *)

(** A failed request adds a record with the error's message as status,
    flagged not found; it is the not-found counter that moves, and the loop
    goes on to its delay. *)
Lemma failed_probe_counted_not_found
    (wordlist : list jsstring) (clock : nat -> jsstring)
    (abortMessage : jsstring) (c : Component) (m0 : Machine)
    (evs : list Event) (reason : jsstring) :
  startScan wordlist clock abortMessage c = Scanning m0 ->
  at_ (run wordlist clock abortMessage evs m0) = AwaitFetch ->
  let m := run wordlist clock abortMessage evs m0 in
  let m' := step wordlist clock abortMessage (FetchFailed reason) m in
  exists r,
    results (ui m') = r :: results (ui m)
    /\ Result.found r = false
    /\ Result.status r = reason
    /\ stats (ui m') = Stats.incrNotFound (stats (ui m))
    /\ Stats.errors (stats (ui m')) = 0
    /\ at_ m' = AwaitDelay.
Proof.
  intros Hstart Hfetch m m'.
  pose proof (@scan_Consistent wordlist clock abortMessage c m0 evs Hstart)
    as HC.
  destruct (step_settled clock abortMessage (FetchFailed reason) HC Hfetch
              (Rejected (typeError reason)) eq_refl)
    as (r & Hr & _ & Hrs & Hst & Hat).
  exists r. rewrite checkPath_failed in Hr. injection Hr as <-.
  split; [exact Hrs|]. split; [reflexivity|]. split; [reflexivity|].
  split; [exact Hst|]. split; [|exact Hat].
  unfold m', m. rewrite Hst. destruct HC as [HT _].
  exact (inv_errors HT).
Qed.

(** C7, at the failing input: the component scans [example.com] and the
    first request fails.  The failure is recorded and the loop goes on, but
    it is counted as not found; the error counter stays at zero. *)
Theorem failed_probe_example :
  exists m0,
    startScan commonPaths sampleClock sampleAbortMessage
              (idle (lit "example.com")) = Scanning m0
    /\ let m := step commonPaths sampleClock sampleAbortMessage
                     (FetchFailed (lit "Failed to fetch")) m0 in
       stats (ui m) = Stats.mk 0 1 0
       /\ map Result.path (results (ui m)) = [lit "admin"]
       /\ map Result.status (results (ui m)) = [lit "Failed to fetch"]
       /\ map Result.found (results (ui m)) = [false]
       /\ at_ m = AwaitDelay.
Proof.
  eexists. split; [reflexivity|]. repeat split; reflexivity.
Qed.

(** ** Stopping *)

(** One invocation alone.  When the stop button is pressed in a scan that
    has produced [k] results, then whatever happens afterwards (to this
    invocation, no other being started) the results stay those [k],
    the component shows no scan and the signal stays aborted; and the loop
    has returned as soon as the timer it was waiting for, if any, has
    fired. *)
Theorem stop_freezes_results
    (wordlist : list jsstring) (clock : nat -> jsstring)
    (abortMessage : jsstring) (c : Component) (m0 : Machine)
    (evs1 evs2 : list Event) (k : nat)
    (Hstart : startScan wordlist clock abortMessage c = Scanning m0)
    (Hk : length (results (ui (run wordlist clock abortMessage evs1 m0)))
          = k) :
  let m1 := run wordlist clock abortMessage evs1 m0 in
  let m2 := run wordlist clock abortMessage evs2
                (step wordlist clock abortMessage StopClicked m1) in
  results (ui m2) = results (ui m1)
  /\ length (results (ui m2)) = k
  /\ isScanning (ui m2) = false
  /\ signalAborted (ui m2) = true
  /\ (pendingTimerFired (at_ m1) evs2 = true -> at_ m2 = Returned).
Proof.
  intros m1 m2.
  pose proof (@scan_Consistent wordlist clock abortMessage c m0 evs1 Hstart)
    as HC1.
  fold m1 in HC1, Hk.
  destruct (step_stop clock abortMessage HC1) as (Hr & Ha & Hat).
  pose proof (step_Consistent clock abortMessage StopClicked HC1) as HC1'.
  destruct (run_after_abort clock abortMessage evs2 HC1' Ha)
    as (Hr2 & Ha2 & Hat2).
  pose proof (run_Consistent clock abortMessage evs2 HC1') as [HT2 _].
  fold m2 in Hr2, Ha2, Hat2, HT2.
  assert (Hrs : results (ui m2) = results (ui m1)) by congruence.
  split; [exact Hrs|]. split; [congruence|].
  split; [exact (inv_stopped HT2 Ha2)|]. split; [exact Ha2|].
  intros Hfired. apply Hat2. rewrite Hat.
  destruct (at_ m1); auto.
Qed.

Lemma stop_freezes_results_witness :
  exists m0,
    startScan commonPaths sampleClock sampleAbortMessage
              (idle (lit "example.com")) = Scanning m0
    /\ length (results (ui (run commonPaths sampleClock sampleAbortMessage
                                [FetchResponded; DelayElapsed] m0))) = 1
    /\ length
         (results
            (ui (run commonPaths sampleClock sampleAbortMessage
                     [FetchResponded; DelayElapsed; FetchResponded]
                     (step commonPaths sampleClock sampleAbortMessage
                           StopClicked
                           (run commonPaths sampleClock sampleAbortMessage
                                [FetchResponded; DelayElapsed] m0))))) = 1.
Proof.
  eexists. split; [reflexivity|]. split; [reflexivity|].
  exact (proj1 (proj2 (@stop_freezes_results
                         commonPaths sampleClock sampleAbortMessage
                         (idle (lit "example.com")) _
                         [FetchResponded; DelayElapsed]
                         [FetchResponded; DelayElapsed; FetchResponded]
                         1 eq_refl eq_refl))).
Defined.


(** One invocation alone.  When the stop button is pressed during the
    delay, the signal is aborted, the component shows no scan, and the loop
    stays in the delay until the timeout fires, whatever else happens; when
    it fires the loop returns without another probe and with the results it
    had. *)
Theorem stop_during_delay
    (wordlist : list jsstring) (clock : nat -> jsstring)
    (abortMessage : jsstring) (c : Component) (m0 : Machine)
    (evs : list Event)
    (Hstart : startScan wordlist clock abortMessage c = Scanning m0)
    (Hdelay : at_ (run wordlist clock abortMessage evs m0) = AwaitDelay) :
  let m := run wordlist clock abortMessage evs m0 in
  let m' := step wordlist clock abortMessage StopClicked m in
  at_ m' = AwaitDelay
  /\ signalAborted (ui m') = true
  /\ isScanning (ui m') = false
  /\ (forall ev, ev <> DelayElapsed ->
        at_ (step wordlist clock abortMessage ev m') = AwaitDelay)
  /\ at_ (step wordlist clock abortMessage DelayElapsed m') = Returned
  /\ results (ui (step wordlist clock abortMessage DelayElapsed m'))
     = results (ui m).
Proof.
  intros m m'.
  pose proof (@scan_Consistent wordlist clock abortMessage c m0 evs Hstart)
    as HC.
  fold m in HC, Hdelay.
  destruct (step_stop clock abortMessage HC) as (Hr & Ha & Hat).
  pose proof (step_Consistent clock abortMessage StopClicked HC) as HC'.
  fold m' in Hr, Ha, Hat, HC'. rewrite Hdelay in Hat.
  split; [exact Hat|]. split; [exact Ha|].
  split; [exact (inv_stopped (proj1 HC') Ha)|]. split; [|split].
  - intros ev Hev.
    destruct (step_after_abort clock abortMessage ev HC' Ha) as (_ & _ & H).
    rewrite Hat in H. destruct ev; congruence.
  - destruct (step_after_abort clock abortMessage DelayElapsed HC' Ha)
      as (_ & _ & H).
    rewrite Hat in H. exact H.
  - destruct (step_after_abort clock abortMessage DelayElapsed HC' Ha)
      as (H & _). congruence.
Qed.

Lemma stop_during_delay_witness :
  exists m0,
    startScan commonPaths sampleClock sampleAbortMessage
              (idle (lit "example.com")) = Scanning m0
    /\ at_ (run commonPaths sampleClock sampleAbortMessage
                [FetchResponded] m0) = AwaitDelay
    /\ at_ (step commonPaths sampleClock sampleAbortMessage DelayElapsed
                 (step commonPaths sampleClock sampleAbortMessage StopClicked
                       (run commonPaths sampleClock sampleAbortMessage
                            [FetchResponded] m0))) = Returned.
Proof.
  eexists. split; [reflexivity|]. split; [reflexivity|].
  exact (proj1 (proj2 (proj2 (proj2 (proj2
           (@stop_during_delay
              commonPaths sampleClock sampleAbortMessage
              (idle (lit "example.com")) _ [FetchResponded]
              eq_refl eq_refl)))))).
Defined.


(* ================================================================== *)
(** * Further properties of the component *)

(** ** More on the target resolver *)

Lemma not_qualified_startsWith (s : jsstring) :
  ~ SchemeQualified s <->
  startsWith s (lit "http://") = false /\ startsWith s (lit "https://") = false.
Proof.
  rewrite startsWith_qualified.
  destruct (startsWith s (lit "http://")), (startsWith s (lit "https://"));
    intuition congruence.
Qed.

Lemma normalizeUrl_of_qualified (s : jsstring) :
  SchemeQualified s ->
  normalizeUrl s = if endsWith s (lit "/") then slice s 0 (-1) else s.
Proof.
  intros H. apply startsWith_qualified in H. unfold normalizeUrl.
  destruct H as [-> | ->]; [reflexivity|].
  rewrite andb_false_r. reflexivity.
Qed.

Lemma normalizeUrl_of_bare (s : jsstring) :
  ~ SchemeQualified s ->
  normalizeUrl s
  = if endsWith (lit "https://" ++ s) (lit "/")
    then slice (lit "https://" ++ s) 0 (-1)
    else lit "https://" ++ s.
Proof.
  intros H. apply not_qualified_startsWith in H as [H1 H2].
  unfold normalizeUrl. rewrite H1, H2. reflexivity.
Qed.

Lemma normalizeUrl_keeps_scheme (rawInput : jsstring) :
  rawInput <> [] -> rawInput <> lit "http://" -> rawInput <> lit "https://" ->
  SchemeQualified (normalizeUrl rawInput).
Proof.
  intros Hne Hhttp Hhttps.
  assert (Hq : SchemeQualified rawInput \/ ~ SchemeQualified rawInput).
  { rewrite not_qualified_startsWith, startsWith_qualified.
    destruct (startsWith rawInput (lit "http://")),
      (startsWith rawInput (lit "https://")); auto. }
  destruct Hq as [Hq|Hq].
  - rewrite (normalizeUrl_of_qualified Hq).
    destruct (endsWith rawInput (lit "/")) eqn:E; [|exact Hq].
    apply endsWith_iff in E as [body E].
    change (lit "/") with [47%N] in E.
    assert (Hcut : forall p rest, rawInput = p ++ rest -> rawInput <> p ->
                     exists rest', body = p ++ rest').
    { intros p rest Hp Hnp. rewrite Hp in E.
      apply ends_in_tail in E as (s' & _ & ->); [eauto|].
      intros ->. rewrite app_nil_r in Hp. auto. }
    rewrite E, slice_drop_last.
    inversion Hq as [rest Hr|rest Hr].
    + destruct (Hcut _ rest (eq_sym Hr) Hhttp) as [rest' ->]. constructor.
    + destruct (Hcut _ rest (eq_sym Hr) Hhttps) as [rest' ->]. constructor.
  - rewrite (normalizeUrl_of_bare Hq).
    destruct (endsWith (lit "https://" ++ rawInput) (lit "/")) eqn:E;
      [|constructor].
    apply endsWith_iff in E as [body E].
    change (lit "/") with [47%N] in E. rewrite E, slice_drop_last.
    apply ends_in_tail in E as (s' & _ & ->); [constructor | exact Hne].
Qed.

(** X1.  The base URL carries a scheme for every input but three: the empty
    input and the two bare schemes, from which the separator of the scheme
    itself is cut. *)
Theorem normalizeUrl_qualified (rawInput : jsstring) :
  SchemeQualified (normalizeUrl rawInput)
  <-> rawInput <> [] /\ rawInput <> lit "http://"
      /\ rawInput <> lit "https://".
Proof.
  split.
  - intros Hq. repeat split; intros ->;
      apply startsWith_qualified in Hq; vm_compute in Hq;
      destruct Hq; discriminate.
  - intros (Hne & Hhttp & Hhttps).
    apply normalizeUrl_keeps_scheme; assumption.
Qed.

(** X2.  The strings [normalizeUrl] leaves as they are, are exactly those
    that carry a scheme and do not end with a separator. *)
Theorem normalizeUrl_fixed_point (base : jsstring) :
  normalizeUrl base = base
  <-> SchemeQualified base /\ endsWith base (lit "/") = false.
Proof.
  split.
  - intros Hfix.
    assert (Hq : SchemeQualified base \/ ~ SchemeQualified base).
    { rewrite not_qualified_startsWith, startsWith_qualified.
      destruct (startsWith base (lit "http://")),
        (startsWith base (lit "https://")); auto. }
    destruct Hq as [Hq|Hq].
    + split; [exact Hq|]. rewrite (normalizeUrl_of_qualified Hq) in Hfix.
      destruct (endsWith base (lit "/")) eqn:E; [|reflexivity].
      apply endsWith_iff in E as [body E].
      change (lit "/") with [47%N] in E.
      rewrite E, slice_drop_last in Hfix.
      apply (f_equal (@length codeunit)) in Hfix.
      rewrite length_app in Hfix. simpl in Hfix. lia.
    + rewrite (normalizeUrl_of_bare Hq) in Hfix.
      destruct (endsWith (lit "https://" ++ base) (lit "/")) eqn:E.
      * apply endsWith_iff in E as [body E].
        change (lit "/") with [47%N] in E.
        rewrite E, slice_drop_last in Hfix. subst body.
        apply (f_equal (@length codeunit)) in E.
        rewrite !length_app in E. simpl in E. lia.
      * apply (f_equal (@length codeunit)) in Hfix.
        rewrite length_app in Hfix. simpl in Hfix. lia.
  - intros [Hq He]. rewrite (normalizeUrl_of_qualified Hq), He. reflexivity.
Qed.

Lemma normalizeUrl_tail_clean (rawInput : jsstring) :
  rawInput <> [] -> rawInput <> lit "/" ->
  endsWith rawInput (lit "//") = false ->
  endsWith (normalizeUrl rawInput) (lit "/") = false.
Proof.
  intros Hne Hlone Hone.
  destruct (normalizeUrl_strips Hne) as (out & Ho & E).
  assert (Hout : out <> [] /\ endsWith out (lit "/") = false).
  { inversion Ho as [body Eb|s Hno Eb]; subst.
    - split; [intros ->; apply Hlone; reflexivity|].
      apply endsWith_false_iff. intros b ->.
      rewrite endsWith_false_iff in Hone. apply (Hone b).
      rewrite <- app_assoc. reflexivity.
    - split; [assumption|]. apply endsWith_false_iff, Hno. }
  destruct Hout as [Ho1 Ho2], E as [E|E]; rewrite E.
  - rewrite endsWith_app_separator; assumption.
  - assumption.
Qed.

(** X3.  Resolving a base URL again changes nothing, for every input that is
    not empty, not the lone separator and does not end with two separators. *)
Theorem normalizeUrl_idempotent (rawInput : jsstring)
    (Hne : rawInput <> []) (Hlone : rawInput <> lit "/")
    (Hone : endsWith rawInput (lit "//") = false) :
  normalizeUrl (normalizeUrl rawInput) = normalizeUrl rawInput.
Proof.
  assert (Hq : SchemeQualified (normalizeUrl rawInput))
    by (apply normalizeUrl_keeps_scheme; trivial; intros ->; discriminate).
  rewrite (normalizeUrl_of_qualified Hq).
  rewrite normalizeUrl_tail_clean by assumption. reflexivity.
Qed.

Lemma normalizeUrl_idempotent_witness :
  normalizeUrl (normalizeUrl (lit "example.com/"))
  = normalizeUrl (lit "example.com/").
Proof.
  apply (@normalizeUrl_idempotent (lit "example.com/"));
    [discriminate | discriminate | reflexivity].
Defined.

(** ** More on starting a scan *)

(** X4.  White space in front of the target is checked away but not taken
    away: a target that begins with white space and has something else
    behind it starts a scan, and the base URL of that scan is [https://]
    followed by that very white space. *)
Theorem startScan_keeps_white_space
    (wordlist : list jsstring) (clock : nat -> jsstring)
    (abortMessage : jsstring) (c : Component)
    (space : codeunit) (rest : jsstring)
    (Htarget : targetUrl c = space :: rest)
    (Hspace : isWhiteSpace space = true)
    (Hrest : forallb isWhiteSpace rest = false) :
  exists m0 tail,
    startScan wordlist clock abortMessage c = Scanning m0
    /\ baseUrl (frame m0) = lit "https://" ++ space :: tail.
Proof.
  assert (Hblank : forallb isWhiteSpace (targetUrl c) = false)
    by (rewrite Htarget; simpl; rewrite Hspace, Hrest; reflexivity).
  destruct (startScan_started wordlist clock abortMessage c Hblank)
    as [m0 Hstart].
  destruct (@startScan_baseUrl wordlist clock abortMessage c m0 Hstart)
    as [Hbase _].
  assert (Hh : (space =? 104)%N = false).
  { destruct (N.eqb_spec space 104) as [->|]; [discriminate|reflexivity]. }
  assert (Hq : ~ SchemeQualified (space :: rest)).
  { apply not_qualified_startsWith. unfold startsWith.
    split; destruct (_ <? _)%nat; trivial;
      change (lit "http://") with (104%N :: lit "ttp://");
      change (lit "https://") with (104%N :: lit "ttps://");
      simpl; rewrite Hh; reflexivity. }
  assert (Hr : rest <> []) by (intros ->; discriminate).
  rewrite Htarget, (normalizeUrl_of_bare Hq) in Hbase.
  exists m0.
  destruct (endsWith (lit "https://" ++ space :: rest) (lit "/")) eqn:E.
  - apply endsWith_iff in E as [body E].
    change (lit "/") with [47%N] in E.
    rewrite E, slice_drop_last in Hbase.
    apply ends_in_tail in E as (s' & Hs & ->); [|discriminate].
    destruct s' as [|x s'].
    + injection Hs as _ Hs. contradiction.
    + injection Hs as <- _. eauto.
  - eauto.
Qed.

Lemma startScan_keeps_white_space_witness :
  exists m0 tail,
    startScan commonPaths sampleClock sampleAbortMessage
              (idle (lit " example.com")) = Scanning m0
    /\ baseUrl (frame m0) = lit "https://" ++ 32%N :: tail.
Proof.
  exact (@startScan_keeps_white_space
           commonPaths sampleClock sampleAbortMessage
           (idle (lit " example.com")) 32%N (lit "example.com")
           eq_refl eq_refl eq_refl).
Defined.

(** How a scan begins. *)
Lemma startScan_begins
    (wordlist : list jsstring) (clock : nat -> jsstring)
    (abortMessage : jsstring) (c : Component) (m0 : Machine)
    (Hstart : startScan wordlist clock abortMessage c = Scanning m0) :
  results (ui m0) = []
  /\ stats (ui m0) = Stats.zero
  /\ progress (ui m0) = 0%float
  /\ signalAborted (ui m0) = false
  /\ isPaused (ui m0) = false
  /\ i (frame m0) = 0
  /\ match wordlist with
     | [] => at_ m0 = Returned /\ isScanning (ui m0) = false
     | _ :: _ =>
         at_ m0 = (if isPaused c then AwaitPause else AwaitFetch)
         /\ isScanning (ui m0) = true
     end.
Proof.
  revert Hstart. unfold startScan.
  destruct (isEmpty (trim (targetUrl c))); [discriminate|].
  intros [= <-]. rewrite loop_unfold. simpl.
  destruct wordlist as [|w l]; simpl; [repeat split|].
  destruct (isPaused c); repeat split.
Qed.

(** X5.  Starting takes nothing over from an earlier scan: whatever the
    component held before, the scan begins with no results, a zero tally, no
    progress and a signal that is not aborted.  With candidates it begins
    with the request for the first one (or in the pause wait, when the
    component was paused); with an empty wordlist it returns at once, and the
    component shows no scan. *)
Theorem startScan_resets
    (wordlist : list jsstring) (clock : nat -> jsstring)
    (abortMessage : jsstring) (c : Component) (m0 : Machine)
    (Hstart : startScan wordlist clock abortMessage c = Scanning m0) :
  results (ui m0) = []
  /\ stats (ui m0) = Stats.zero
  /\ progress (ui m0) = 0%float
  /\ signalAborted (ui m0) = false
  /\ isPaused (ui m0) = false
  /\ i (frame m0) = 0
  /\ match wordlist with
     | [] => at_ m0 = Returned /\ isScanning (ui m0) = false
     | _ :: _ =>
         at_ m0 = (if isPaused c then AwaitPause else AwaitFetch)
         /\ isScanning (ui m0) = true
     end.
Proof.
  exact (@startScan_begins wordlist clock abortMessage c m0 Hstart).
Qed.

Lemma startScan_resets_witness :
  exists m0,
    startScan [] sampleClock sampleAbortMessage (idle (lit "example.com"))
    = Scanning m0
    /\ at_ m0 = Returned /\ isScanning (ui m0) = false.
Proof.
  eexists. split; [reflexivity|].
  exact (proj2 (proj2 (proj2 (proj2 (proj2 (proj2
           (@startScan_resets [] sampleClock sampleAbortMessage
              (idle (lit "example.com")) _ eq_refl))))))).
Defined.

(** ** More on the results of a scan *)

Lemma NoDup_firstn (l : list jsstring) (k : nat) :
  NoDup l -> NoDup (firstn k l).
Proof.
  intros H. rewrite <- (firstn_skipn k l) in H.
  exact (NoDup_app_remove_r _ _ H).
Qed.

Lemma NoDup_map_prefixed (prefix : jsstring) (l : list jsstring) :
  NoDup l -> NoDup (map (fun path => prefix ++ path) l).
Proof.
  induction 1 as [|p l Hp Hl IH]; simpl; constructor; [|exact IH].
  rewrite in_map_iff. intros (q & Hq & Hin).
  apply app_inv_head in Hq. subst q. contradiction.
Qed.

(** One invocation alone.  At every moment of a scan, stopped or not, the
    results are the first candidates of the wordlist, newest first: no
    candidate is skipped and none is probed twice.  Each URL is the base URL,
    a separator and the candidate, so a wordlist without repetitions gives
    results without repeated URLs. *)
Theorem results_follow_wordlist
    (wordlist : list jsstring) (clock : nat -> jsstring)
    (abortMessage : jsstring) (c : Component) (m0 : Machine)
    (evs : list Event)
    (Hstart : startScan wordlist clock abortMessage c = Scanning m0) :
  let rs := results (ui (run wordlist clock abortMessage evs m0)) in
  length rs <= length wordlist
  /\ map Result.path (rev rs) = firstn (length rs) wordlist
  /\ map Result.url rs
     = map (fun path => normalizeUrl (targetUrl c) ++ lit "/" ++ path)
           (map Result.path rs)
  /\ (NoDup wordlist -> NoDup (map Result.url rs)).
Proof.
  intros rs.
  destruct (@scan_Consistent wordlist clock abortMessage c m0 evs Hstart)
    as [HT _].
  destruct (@startScan_baseUrl wordlist clock abortMessage c m0 Hstart)
    as [Hbase _].
  pose proof (inv_paths HT) as Hpaths. pose proof (inv_urls HT) as Hurls.
  rewrite run_baseUrl, Hbase in Hurls. fold rs in Hpaths, Hurls.
  assert (Hmap : map Result.url rs
                 = map (fun path => normalizeUrl (targetUrl c) ++ lit "/" ++ path)
                       (map Result.path rs)).
  { rewrite map_map. apply map_ext_in. intros r Hr.
    rewrite Forall_forall in Hurls. exact (Hurls r Hr). }
  split; [exact (inv_bound HT)|]. split; [|split; [exact Hmap|]].
  - rewrite map_rev, Hpaths. apply rev_involutive.
  - intros Hnd. rewrite Hmap, Hpaths.
    rewrite (map_ext _ (fun path => (normalizeUrl (targetUrl c) ++ lit "/")
                                      ++ path))
      by (intros; apply app_assoc).
    apply NoDup_map_prefixed, NoDup_rev, NoDup_firstn, Hnd.
Qed.

Lemma results_follow_wordlist_witness :
  exists m0,
    startScan commonPaths sampleClock sampleAbortMessage
              (idle (lit "example.com")) = Scanning m0
    /\ map Result.path
           (rev (results
                   (ui (run commonPaths sampleClock sampleAbortMessage
                            [FetchResponded; DelayElapsed;
                             FetchFailed (lit "Failed to fetch"); StopClicked]
                            m0))))
       = [lit "admin"; lit "administrator"].
Proof.
  eexists. split; [reflexivity|].
  exact (proj1 (proj2 (@results_follow_wordlist
                         commonPaths sampleClock sampleAbortMessage
                         (idle (lit "example.com")) _
                         [FetchResponded; DelayElapsed;
                          FetchFailed (lit "Failed to fetch"); StopClicked]
                         eq_refl))).
Defined.

(** X7.  After the stop button the scan sends nothing more: the request in
    flight, if any, is cancelled, and whatever happens later no request is
    in flight again. *)
Theorem no_request_after_stop
    (wordlist : list jsstring) (clock : nat -> jsstring)
    (abortMessage : jsstring) (c : Component) (m0 : Machine)
    (evs1 evs2 : list Event)
    (Hstart : startScan wordlist clock abortMessage c = Scanning m0) :
  let m1 := run wordlist clock abortMessage evs1 m0 in
  at_ (run wordlist clock abortMessage evs2
           (step wordlist clock abortMessage StopClicked m1))
  <> AwaitFetch.
Proof.
  intros m1.
  pose proof (@scan_Consistent wordlist clock abortMessage c m0 evs1 Hstart)
    as HC1.
  fold m1 in HC1.
  destruct (step_stop clock abortMessage HC1) as (_ & Ha & _).
  pose proof (step_Consistent clock abortMessage StopClicked HC1) as HC1'.
  destruct (run_after_abort clock abortMessage evs2 HC1' Ha) as (_ & Ha2 & _).
  destruct (run_Consistent clock abortMessage evs2 HC1') as [_ HP].
  unfold Placed in HP. intros Hat. rewrite Hat in HP.
  destruct HP as (_ & _ & HP). congruence.
Qed.

Lemma no_request_after_stop_witness :
  exists m0,
    startScan commonPaths sampleClock sampleAbortMessage
              (idle (lit "example.com")) = Scanning m0
    /\ at_ m0 = AwaitFetch
    /\ at_ (run commonPaths sampleClock sampleAbortMessage
                [DelayElapsed; FetchResponded; Tick]
                (step commonPaths sampleClock sampleAbortMessage StopClicked
                      (run commonPaths sampleClock sampleAbortMessage []
                           m0)))
       <> AwaitFetch.
Proof.
  eexists. split; [reflexivity|]. split; [reflexivity|].
  exact (@no_request_after_stop
           commonPaths sampleClock sampleAbortMessage
           (idle (lit "example.com")) _ [] [DelayElapsed; FetchResponded; Tick]
           eq_refl).
Defined.

(** ** The pause button *)

Section Pause.

Variable wordlist : list jsstring.
Variable clock : nat -> jsstring.
Variable abortMessage : jsstring.

Local Abbreviation Step := (step wordlist clock abortMessage).
Local Abbreviation Run := (run wordlist clock abortMessage).

(** What the code of an invocation does never depends on the [isPaused]
    cell: with another value in the cell, an event that is not the pause
    button leads to the same frame, the same suspension and the same
    component but for that cell. *)
Lemma step_ignores_isPaused (ev : Event) (c : Component) (f : Frame)
    (a : Suspension) (b : bool) :
  ev <> PauseClicked ->
  let m := Step ev {| ui := c; frame := f; at_ := a |} in
  let mb := Step ev {| ui := setIsPaused b c; frame := f; at_ := a |} in
  frame mb = frame m /\ at_ mb = at_ m
  /\ exists b', ui mb = setIsPaused b' (ui m).
Proof.
  intros Hev.
  assert (Hstop : stopScan (setIsPaused b c) = stopScan c)
    by (unfold stopScan; simpl; destruct (abortControllerRef c); reflexivity).
  destruct ev, a; try congruence; unfold step; cbn [ui frame at_];
    change (signalAborted (setIsPaused b c)) with (signalAborted c);
    rewrite ?Hstop;
    try (repeat split; exists b; reflexivity);
    try (repeat split; exists false; reflexivity).
  - (* the interval fires *)
    destruct (negb (closure_isPaused f) || signalAborted c);
      [|repeat split; exists b; reflexivity].
    unfold probe, fetch.
    change (signalAborted (setIsPaused b c)) with (signalAborted c).
    destruct (signalAborted c);
      [repeat split; exists false | repeat split; exists b]; reflexivity.
  - (* the delay is over *)
    unfold nextIteration. rewrite !loop_unfold.
    change (signalAborted (setIsPaused b c)) with (signalAborted c).
    destruct (i (incrI f) <? length wordlist)%nat, (signalAborted c),
      (closure_isPaused (incrI f));
      repeat split; (exists false; reflexivity) || (exists b; reflexivity).
  - (* stop, with a request in flight *)
    destruct (negb (signalAborted c) && signalAborted (stopScan c));
      repeat split; exists false; reflexivity.
Qed.

Lemma run_ignores_isPaused (evs : list Event) :
  forall (c : Component) (f : Frame) (a : Suspension) (b : bool),
    let m := Run evs {| ui := c; frame := f; at_ := a |} in
    let mb := Run (withoutPauses evs)
                  {| ui := setIsPaused b c; frame := f; at_ := a |} in
    frame mb = frame m /\ at_ mb = at_ m
    /\ exists b', ui mb = setIsPaused b' (ui m).
Proof.
  induction evs as [|ev evs IH]; intros c f a b.
  - simpl. repeat split. exists b. reflexivity.
  - assert (Hdec : ev = PauseClicked \/ ev <> PauseClicked)
      by (destruct ev; auto; right; discriminate).
    destruct Hdec as [->|Hev].
    + change (withoutPauses (PauseClicked :: evs)) with (withoutPauses evs).
      change (Run (PauseClicked :: evs) {| ui := c; frame := f; at_ := a |})
        with (Run evs {| ui := togglePause c; frame := f; at_ := a |}).
      exact (IH (togglePause c) f a b).
    + assert (Hkeep : withoutPauses (ev :: evs) = ev :: withoutPauses evs)
        by (destruct ev; try reflexivity; congruence).
      rewrite Hkeep.
      change (Run (ev :: evs) {| ui := c; frame := f; at_ := a |})
        with (Run evs (Step ev {| ui := c; frame := f; at_ := a |})).
      change (Run (ev :: withoutPauses evs)
                  {| ui := setIsPaused b c; frame := f; at_ := a |})
        with (Run (withoutPauses evs)
                  (Step ev {| ui := setIsPaused b c; frame := f; at_ := a |})).
      destruct (step_ignores_isPaused c f a b Hev) as (Hf & Ha & b' & Hu).
      destruct (Step ev {| ui := setIsPaused b c; frame := f; at_ := a |})
        as [cb fb ab].
      destruct (Step ev {| ui := c; frame := f; at_ := a |}) as [c' f' a'].
      cbn [ui frame at_] in Hf, Ha, Hu. subst fb ab cb.
      exact (IH c' f' a' b').
Qed.

End Pause.

(** X8.  The Pause/Resume button does not pause: take the clicks on it out
    of anything that happens to a scan, and the scan is where it was, with
    the same requests made, the same results, tally and progress.  The
    button only changes the [isPaused] cell, which the running code never
    reads. *)
Theorem pause_changes_nothing
    (wordlist : list jsstring) (clock : nat -> jsstring)
    (abortMessage : jsstring) (m : Machine) (evs : list Event) :
  let m1 := run wordlist clock abortMessage evs m in
  let m2 := run wordlist clock abortMessage (withoutPauses evs) m in
  frame m2 = frame m1
  /\ at_ m2 = at_ m1
  /\ results (ui m2) = results (ui m1)
  /\ stats (ui m2) = stats (ui m1)
  /\ progress (ui m2) = progress (ui m1)
  /\ isScanning (ui m2) = isScanning (ui m1)
  /\ abortControllerRef (ui m2) = abortControllerRef (ui m1).
Proof.
  destruct m as [c f a].
  destruct (run_ignores_isPaused wordlist clock abortMessage evs c f a
              (isPaused c)) as (Hf & Ha & b' & Hu).
  replace (setIsPaused (isPaused c) c) with c in * by (destruct c; reflexivity).
  cbv zeta. rewrite Hf, Ha, Hu. repeat split.
Qed.

(** ** Progress *)

Section Progress.

Variable wordlist : list jsstring.
Variable clock : nat -> jsstring.
Variable abortMessage : jsstring.

Local Abbreviation Step := (step wordlist clock abortMessage).
Local Abbreviation Run := (run wordlist clock abortMessage).

Lemma step_Measured (ev : Event) (m : Machine) :
  Consistent wordlist m -> Measured wordlist m ->
  Measured wordlist (Step ev m).
Proof.
  destruct m as [c f a]. intros [HT HP] HM. unfold Placed in HP.
  unfold Measured in *. cbn [ui frame at_] in HT, HP, HM.
  assert (Hstop : forall c', c' = stopScan c ->
                    results c' = results c /\ progress c' = progress c)
    by (intros c' ->; unfold stopScan; destruct (abortControllerRef c); auto).
  destruct ev, a; unfold step; cbn [ui frame at_]; try exact HM.
  - destruct HP as (Hi & _). simpl. rewrite Hi.
    unfold progressAfter. rewrite Nat.add_1_r. reflexivity.
  - destruct HP as (Hi & _). simpl. rewrite Hi.
    unfold progressAfter. rewrite Nat.add_1_r. reflexivity.
  - destruct (negb (closure_isPaused f) || signalAborted c); [|exact HM].
    unfold probe, fetch. destruct (signalAborted c); exact HM.
  - unfold nextIteration. rewrite loop_unfold.
    destruct (i (incrI f) <? length wordlist)%nat, (signalAborted c),
      (closure_isPaused (incrI f)); exact HM.
  - destruct (Hstop _ eq_refl) as [-> ->]. exact HM.
  - destruct (Hstop _ eq_refl) as [Hsr Hsp].
    destruct (negb (signalAborted c) && signalAborted (stopScan c)).
    + rewrite checkPath_aborted.
      change (progress (stopScan c)
              = match results (stopScan c) with
                | [] => 0%float
                | _ :: _ =>
                    progressAfter wordlist (length (results (stopScan c)))
                end).
      rewrite Hsr, Hsp. exact HM.
    + cbn [ui]. rewrite Hsr, Hsp. exact HM.
  - destruct (Hstop _ eq_refl) as [-> ->]. exact HM.
  - destruct (Hstop _ eq_refl) as [-> ->]. exact HM.
Qed.

Lemma scan_Measured (c : Component) (m0 : Machine) (evs : list Event) :
  startScan wordlist clock abortMessage c = Scanning m0 ->
  Measured wordlist (Run evs m0).
Proof.
  intros Hstart.
  pose proof (@startScan_Consistent wordlist clock abortMessage c m0 Hstart)
    as HC.
  assert (HM : Measured wordlist m0).
  { revert Hstart. unfold startScan.
    destruct (isEmpty (trim (targetUrl c))); [discriminate|].
    intros [= <-]. unfold Measured. rewrite loop_unfold. simpl.
    destruct wordlist; simpl; [reflexivity|].
    destruct (isPaused c); reflexivity. }
  clear Hstart. revert m0 HC HM.
  induction evs as [|ev evs IH]; intros m0 HC HM; [exact HM|].
  simpl. apply IH; [apply step_Consistent | apply step_Measured]; assumption.
Qed.

End Progress.

(** ** Sessions: several invocations on one component *)

Section SessionFacts.

Variable wordlist : list jsstring.
Variable clock : nat -> jsstring.
Variable abortMessage : jsstring.

Local Abbreviation Step := (step wordlist clock abortMessage).
Local Abbreviation Act := (act wordlist clock abortMessage).
Local Abbreviation Play := (session wordlist clock abortMessage).
Local Abbreviation ResumeCall := (resumeCall wordlist clock abortMessage).
Local Abbreviation ResumeNth := (resumeNth wordlist clock abortMessage).
Local Abbreviation RejectCall := (rejectCall wordlist clock abortMessage).
Local Abbreviation RejectAll := (rejectAll wordlist clock abortMessage).

(** A rejected request takes its invocation out of the loop. *)
Lemma rejectCall_unfold (current : nat) (c : Component) (k : Call) :
  RejectCall current c k
  = match call_at k with
    | AwaitFetch =>
        if (call_signal k =? current)%nat
        then (setIsPaused false (setIsScanning false c),
              {| call_frame := call_frame k;
                 call_at := Returned;
                 call_signal := call_signal k |})
        else (c, k)
    | _ => (c, k)
    end.
Proof.
  unfold rejectCall. destruct (call_at k); reflexivity.
Qed.

(** *** One scan is a session *)

Lemma act_alone (current : nat) (ev : Event) (m : Machine) :
  Act (asAction ev) (alone current m) = alone current (Step ev m).
Proof.
  destruct m as [c f a]. unfold alone. cbn [ui frame at_].
  assert (Hresume : forall ev', asAction ev' = Resume 0 ev' ->
            Act (asAction ev') {| shared := c; controllers := current;
                                  calls := [{| call_frame := f;
                                               call_at := a;
                                               call_signal := current |}] |}
            = alone current (Step ev' {| ui := c; frame := f; at_ := a |})).
  { intros ev' Hev. rewrite Hev. unfold alone.
    destruct ev'; try discriminate;
      cbn [act shared controllers calls resumeNth];
      unfold resumeCall, machineOf; cbn [call_frame call_at call_signal];
      destruct (Step _ {| ui := c; frame := f; at_ := a |}) as [c' f' a'];
      destruct a', a; reflexivity. }
  destruct ev; try (apply Hresume; reflexivity).
  - (* stop *)
    cbn [asAction act shared controllers calls].
    destruct a; unfold step, alone; cbn [ui frame at_];
      destruct (negb (signalAborted c) && signalAborted (stopScan c));
      try reflexivity.
    unfold rejectAll, rejectCall. cbn [call_frame call_at call_signal].
    rewrite Nat.eqb_refl. reflexivity.
  - (* pause *)
    reflexivity.
Qed.

Lemma session_alone (current : nat) (evs : list Event) (m : Machine) :
  Play (map asAction evs) (alone current m)
  = alone current (run wordlist clock abortMessage evs m).
Proof.
  revert m. induction evs as [|ev evs IH]; intros m; [reflexivity|].
  simpl. rewrite act_alone. apply IH.
Qed.

(** A session in which Start is pressed once is the scan of one machine. *)
Lemma session_one_start (target : jsstring) (m0 : Machine)
    (evs : list Event) :
  startScan wordlist clock abortMessage (idle target) = Scanning m0 ->
  Play (ClickStart :: map asAction evs) (fresh target)
  = alone 1 (run wordlist clock abortMessage evs m0).
Proof.
  intros Hstart. rewrite <- session_alone.
  unfold session at 1. cbn [fold_left act fresh shared].
  rewrite Hstart. reflexivity.
Qed.

End SessionFacts.

(** *** Keeping a property through a session

    A property [G] of the component and a property [K] of every invocation
    hold throughout a session when each piece of code that can run keeps
    them, given what the actions may rely on ([ok]). *)

Section SessionInvariant.

Local Unset Implicit Arguments.

Variable wordlist : list jsstring.
Variable clock : nat -> jsstring.
Variable abortMessage : jsstring.

Variable G : Component -> Prop.
Variable K : Call -> Prop.
Variable ok : Action -> Session -> Prop.

Local Abbreviation Act := (act wordlist clock abortMessage).
Local Abbreviation Play := (session wordlist clock abortMessage).

Hypothesis resume_keeps :
  forall current ev c k,
    ev <> StopClicked -> ev <> PauseClicked -> G c -> K k ->
    G (fst (resumeCall wordlist clock abortMessage current ev c k))
    /\ K (snd (resumeCall wordlist clock abortMessage current ev c k)).

Hypothesis exit_keeps :
  forall c k,
    G c -> K k ->
    G (setIsPaused false (setIsScanning false c))
    /\ K {| call_frame := call_frame k;
            call_at := Returned;
            call_signal := call_signal k |}.

Hypothesis start_keeps :
  forall s m,
    ok ClickStart s -> Kept G K s ->
    startScan wordlist clock abortMessage (shared s) = Scanning m ->
    G (ui m)
    /\ K {| call_frame := frame m;
            call_at := at_ m;
            call_signal := S (controllers s) |}.

Hypothesis stop_keeps :
  forall s, ok ClickStop s -> Kept G K s -> G (stopScan (shared s)).

Hypothesis pause_keeps :
  forall s, ok ClickPause s -> Kept G K s -> G (togglePause (shared s)).

Hypothesis type_keeps :
  forall s text,
    ok (TypeTarget text) s -> Kept G K s -> G (setTargetUrl text (shared s)).

Lemma resumeNth_Kept (j current : nat) (ev : Event) :
  ev <> StopClicked -> ev <> PauseClicked ->
  forall c ks,
    G c -> Forall K ks ->
    G (fst (resumeNth wordlist clock abortMessage j current ev c ks))
    /\ Forall K (snd (resumeNth wordlist clock abortMessage j current ev c ks)).
Proof.
  intros Hs Hp.
  induction j as [|j IH]; intros c [|k ks] HG HK; cbn [resumeNth fst snd];
    auto.
  - inversion HK as [|? ? Hk Hks]; subst.
    destruct (resume_keeps current ev c k Hs Hp HG Hk) as [HG' HK'].
    destruct (resumeCall wordlist clock abortMessage current ev c k)
      as [c' k']. cbn [fst snd] in *. auto.
  - inversion HK as [|? ? Hk Hks]; subst.
    destruct (IH c ks HG Hks) as [HG' HK'].
    destruct (resumeNth wordlist clock abortMessage j current ev c ks)
      as [c' ks']. cbn [fst snd] in *. auto.
Qed.

Lemma rejectAll_Kept (current : nat) :
  forall ks c,
    G c -> Forall K ks ->
    G (fst (rejectAll wordlist clock abortMessage current c ks))
    /\ Forall K (snd (rejectAll wordlist clock abortMessage current c ks)).
Proof.
  induction ks as [|k ks IH]; intros c HG HK; cbn [rejectAll fst snd]; auto.
  inversion HK as [|? ? Hk Hks]; subst.
  assert (H1 : G (fst (rejectCall wordlist clock abortMessage current c k))
               /\ K (snd (rejectCall wordlist clock abortMessage current c k))).
  { rewrite rejectCall_unfold.
    destruct (call_at k); auto.
    destruct (call_signal k =? current)%nat; auto.
    apply exit_keeps; assumption. }
  destruct H1 as [HG1 HK1].
  destruct (rejectCall wordlist clock abortMessage current c k) as [c1 k1].
  cbn [fst snd] in HG1, HK1.
  destruct (IH c1 HG1 Hks) as [HG2 HK2].
  destruct (rejectAll wordlist clock abortMessage current c1 ks) as [c2 ks2].
  cbn [fst snd] in *. auto.
Qed.

Lemma act_Kept (a : Action) (s : Session) :
  ok a s -> Kept G K s -> Kept G K (Act a s).
Proof.
  intros Hok HI. pose proof HI as [HG HK].
  destruct a; cbn [act].
  - destruct (startScan wordlist clock abortMessage (shared s)) as [|m] eqn:E;
      [exact HI|].
    destruct (start_keeps s m Hok HI E) as [HG' HK'].
    split; cbn [shared calls]; [exact HG'|]. apply Forall_app. auto.
  - pose proof (stop_keeps s Hok HI) as HGs.
    destruct (negb (signalAborted (shared s))
              && signalAborted (stopScan (shared s))); [|split; assumption].
    destruct (rejectAll_Kept (controllers s) (calls s) _ HGs HK) as [HG' HK'].
    destruct (rejectAll wordlist clock abortMessage (controllers s)
                (stopScan (shared s)) (calls s)) as [c' ks].
    split; assumption.
  - split; [apply pause_keeps|]; assumption.
  - split; [apply type_keeps|]; assumption.
  - assert (Hev : (ev <> StopClicked /\ ev <> PauseClicked)
                  \/ Act (Resume j ev) s = s)
      by (destruct ev; auto; left; split; discriminate).
    destruct Hev as [[Hs Hp]|Hid]; [|cbn [act] in Hid; rewrite Hid; exact HI].
    destruct (resumeNth_Kept j (controllers s) ev Hs Hp _ _ HG HK) as [HG' HK'].
    destruct (resumeNth wordlist clock abortMessage j (controllers s) ev
                (shared s) (calls s)) as [c' ks].
    destruct ev; try congruence; split; assumption.
Qed.

Lemma session_Kept (acts : list Action) :
  forall s,
    Along wordlist clock abortMessage ok acts s -> Kept G K s ->
    Kept G K (Play acts s).
Proof.
  induction acts as [|a acts IH]; intros s Hok HI; [exact HI|].
  destruct Hok as [Ha Hrest]. cbn [session fold_left].
  apply IH; [exact Hrest|].
  apply act_Kept; assumption.
Qed.

End SessionInvariant.

(** *** What the code of one invocation keeps, whatever the others do *)

Section Resumption.

Variable wordlist : list jsstring.
Variable clock : nat -> jsstring.
Variable abortMessage : jsstring.

Local Abbreviation Step := (step wordlist clock abortMessage).

(** The error counters stay at zero. *)
Lemma step_errors_zero (ev : Event) (m : Machine) :
  Stats.errors (stats (ui m)) = 0 ->
  Stats.errors (currentStats (frame m)) = 0 ->
  Stats.errors (stats (ui (Step ev m))) = 0
  /\ Stats.errors (currentStats (frame (Step ev m))) = 0.
Proof.
  destruct m as [c f a]. cbn [ui frame]. intros Hc Hf.
  assert (Hstop : stats (stopScan c) = stats c)
    by (unfold stopScan; destruct (abortControllerRef c); reflexivity).
  destruct ev, a; unfold step; cbn [ui frame at_]; rewrite ?Hstop; auto.
  - destruct (negb (closure_isPaused f) || signalAborted c); auto.
    unfold probe, fetch. destruct (signalAborted c); auto.
  - unfold nextIteration.
    destruct (loop_ui wordlist clock abortMessage c (incrI f))
      as (_ & -> & _ & ->). auto.
  - destruct (negb (signalAborted c) && signalAborted (stopScan c));
      cbn [ui frame]; rewrite ?Hstop; auto.
    rewrite checkPath_aborted.
    change (Stats.errors (stats (stopScan c)) = 0
            /\ Stats.errors (currentStats f) = 0).
    rewrite Hstop. auto.
Qed.

(** An event from the environment leaves the two flags of the component as
    they are or clears both; it leaves the closure's [isPaused] alone, and it
    takes an invocation into the pause wait only if that is set. *)
Lemma step_flags (ev : Event) (m : Machine) :
  ev <> StopClicked -> ev <> PauseClicked ->
  ((isScanning (ui (Step ev m)) = isScanning (ui m)
    /\ isPaused (ui (Step ev m)) = isPaused (ui m))
   \/ (isScanning (ui (Step ev m)) = false
       /\ isPaused (ui (Step ev m)) = false))
  /\ closure_isPaused (frame (Step ev m)) = closure_isPaused (frame m)
  /\ (at_ (Step ev m) = AwaitPause ->
      at_ m = AwaitPause \/ closure_isPaused (frame m) = true).
Proof.
  destruct m as [c f a]. cbn [ui frame at_]. intros Hs Hp.
  destruct ev, a; try congruence; unfold step; cbn [ui frame at_];
    try (repeat split; auto; discriminate).
  - destruct (negb (closure_isPaused f) || signalAborted c);
      [|repeat split; auto].
    unfold probe, fetch. destruct (signalAborted c); simpl;
      repeat split; auto; discriminate.
  - unfold nextIteration. rewrite loop_unfold.
    destruct (i (incrI f) <? length wordlist)%nat, (signalAborted c),
      (closure_isPaused (incrI f)) eqn:E; simpl;
      repeat split; auto; discriminate.
Qed.

(** A request is only ever for a candidate of the wordlist. *)
Lemma step_in_wordlist (ev : Event) (m : Machine) :
  Forall (fun r => In (Result.path r) wordlist) (results (ui m)) ->
  (at_ m = AwaitFetch \/ at_ m = AwaitPause ->
   i (frame m) < length wordlist) ->
  Forall (fun r => In (Result.path r) wordlist) (results (ui (Step ev m)))
  /\ (at_ (Step ev m) = AwaitFetch \/ at_ (Step ev m) = AwaitPause ->
      i (frame (Step ev m)) < length wordlist).
Proof.
  destruct m as [c f a]. cbn [ui frame at_]. intros Hr Hi.
  assert (Hstop : results (stopScan c) = results c)
    by (unfold stopScan; destruct (abortControllerRef c); reflexivity).
  assert (Hcand : a = AwaitFetch -> In (candidate wordlist f) wordlist)
    by (intros ->; apply nth_In, Hi; auto).
  destruct ev, a; unfold step; cbn [ui frame at_]; rewrite ?Hstop; auto;
    try (split; [exact Hr | intros [H|H]; discriminate]).
  - split; [|intros [H|H]; discriminate].
    simpl. constructor; auto.
  - split; [|intros [H|H]; discriminate].
    simpl. constructor; auto.
  - destruct (negb (closure_isPaused f) || signalAborted c); auto.
    unfold probe, fetch. destruct (signalAborted c); simpl; auto.
  - unfold nextIteration. rewrite loop_unfold.
    destruct (Nat.ltb_spec (i (incrI f)) (length wordlist)) as [Hlt|Hge];
      [destruct (signalAborted c), (closure_isPaused (incrI f))|];
      cbn [ui frame at_ exitLoop]; split; auto;
      intros [H|H]; discriminate.
  - destruct (negb (signalAborted c) && signalAborted (stopScan c)).
    + rewrite checkPath_aborted.
      change (Forall (fun r => In (Result.path r) wordlist)
                     (results (stopScan c))
              /\ (Returned = AwaitFetch \/ Returned = AwaitPause ->
                  i f < length wordlist)).
      rewrite Hstop. split; [exact Hr | intros [H|H]; discriminate].
    + cbn [ui frame at_]. rewrite Hstop. auto.
Qed.

End Resumption.

Lemma Along_always
    (wordlist : list jsstring) (clock : nat -> jsstring)
    (abortMessage : jsstring) (acts : list Action) (s : Session) :
  Along wordlist clock abortMessage (fun _ _ => True) acts s.
Proof.
  revert s. induction acts as [|a acts IH]; intros s; simpl; auto.
Qed.

Lemma Along_permitted
    (wordlist : list jsstring) (clock : nat -> jsstring)
    (abortMessage : jsstring) (acts : list Action) (s : Session) :
  permittedAll wordlist clock abortMessage acts s = true ->
  Along wordlist clock abortMessage (fun a s => permitted a s = true) acts s.
Proof.
  revert s. induction acts as [|a acts IH]; intros s H; simpl; [exact I|].
  simpl in H. apply andb_true_iff in H as [Ha H]. auto.
Qed.

Lemma startScan_frame
    (wordlist : list jsstring) (clock : nat -> jsstring)
    (abortMessage : jsstring) (c : Component) (m : Machine) :
  startScan wordlist clock abortMessage c = Scanning m ->
  frame m = {| closure_isPaused := isPaused c;
               baseUrl := normalizeUrl (targetUrl c);
               currentStats := Stats.zero;
               i := 0 |}.
Proof.
  unfold startScan. destruct (isEmpty (trim (targetUrl c))); [discriminate|].
  intros [= <-]. apply loop_ui.
Qed.

(** X10.  The error counter never moves, in no session: however many scans
    are started, stopped and overlapped, and whatever the network does, the
    component's [stats.errors] is zero. *)
Theorem session_errors_zero
    (wordlist : list jsstring) (clock : nat -> jsstring)
    (abortMessage : jsstring) (target : jsstring) (acts : list Action) :
  let s := session wordlist clock abortMessage acts (fresh target) in
  Stats.errors (stats (shared s)) = 0
  /\ Forall (fun k => Stats.errors (currentStats (call_frame k)) = 0)
            (calls s).
Proof.
  apply (@session_Kept wordlist clock abortMessage
           (fun c => Stats.errors (stats c) = 0)
           (fun k => Stats.errors (currentStats (call_frame k)) = 0)
           (fun _ _ => True)).
  - intros current ev c k _ _ HG HK.
    exact (step_errors_zero wordlist clock abortMessage ev (machineOf c k)
             HG HK).
  - intros c k HG HK. split; assumption.
  - intros s m _ _ Hstart.
    destruct (@startScan_begins wordlist clock abortMessage _ m Hstart)
      as (_ & -> & _).
    cbn [call_frame].
    rewrite (@startScan_frame wordlist clock abortMessage _ m Hstart).
    split; reflexivity.
  - intros s _ [HG _]. unfold stopScan.
    destruct (abortControllerRef (shared s)); exact HG.
  - intros s _ [HG _]. exact HG.
  - intros s text _ [HG _]. exact HG.
  - apply Along_always.
  - split; [reflexivity | constructor].
Qed.

(** X11.  As long as the user only does what the page offers, no invocation
    of [startScan] ever waits in the pause loop of lines 84-93: each one is
    started with [isPaused] false in its closure, because the component never
    shows the Start button with [isPaused] set. *)
Theorem pause_wait_never_entered
    (wordlist : list jsstring) (clock : nat -> jsstring)
    (abortMessage : jsstring) (target : jsstring) (acts : list Action)
    (Hpermitted :
       permittedAll wordlist clock abortMessage acts (fresh target) = true) :
  let s := session wordlist clock abortMessage acts (fresh target) in
  (isScanning (shared s) = false -> isPaused (shared s) = false)
  /\ Forall (fun k => closure_isPaused (call_frame k) = false
                      /\ call_at k <> AwaitPause)
            (calls s).
Proof.
  apply (@session_Kept wordlist clock abortMessage
           (fun c => isScanning c = false -> isPaused c = false)
           (fun k => closure_isPaused (call_frame k) = false
                     /\ call_at k <> AwaitPause)
           (fun a s => permitted a s = true)).
  - intros current ev c k Hs Hp HG [HK1 HK2].
    destruct (step_flags wordlist clock abortMessage (machineOf c k) Hs Hp)
      as (Hflags & Hclosure & Hat).
    unfold resumeCall. cbn [fst snd call_frame call_at].
    cbn [machineOf ui frame at_] in Hflags, Hclosure, Hat.
    split; [|split].
    + destruct Hflags as [[-> ->]|[_ ->]]; auto.
    + rewrite Hclosure. exact HK1.
    + intros H. destruct (Hat H); congruence.
  - intros c k _ [HK1 _]. split; [reflexivity|].
    split; [exact HK1 | discriminate].
  - intros s m Hok [HG _] Hstart.
    cbn [permitted] in Hok. unfold startButtonShown in Hok.
    apply negb_true_iff in Hok. specialize (HG Hok).
    destruct (@startScan_begins wordlist clock abortMessage _ m Hstart)
      as (_ & _ & _ & _ & Hp & _ & Hat).
    cbn [call_frame call_at].
    rewrite (@startScan_frame wordlist clock abortMessage _ m Hstart).
    cbn [closure_isPaused]. split; [auto|]. split; [exact HG|].
    rewrite HG in Hat. destruct wordlist; destruct Hat as [-> _]; discriminate.
  - intros s _ _ _. unfold stopScan.
    destruct (abortControllerRef (shared s)); reflexivity.
  - intros s Hok _. cbn [permitted] in Hok. unfold scanButtonsShown in Hok.
    unfold togglePause. simpl. congruence.
  - intros s text _ [HG _]. exact HG.
  - apply Along_permitted, Hpermitted.
  - split; [reflexivity | constructor].
Qed.

Lemma pause_wait_never_entered_witness :
  Forall (fun k => closure_isPaused (call_frame k) = false
                   /\ call_at k <> AwaitPause)
         (calls (session commonPaths sampleClock sampleAbortMessage
                         [ClickStart; ClickPause; Resume 0 FetchResponded;
                          ClickStop; ClickStart; Resume 0 DelayElapsed]
                         (fresh (lit "example.com")))).
Proof.
  exact (proj2 (@pause_wait_never_entered
                  commonPaths sampleClock sampleAbortMessage
                  (lit "example.com")
                  [ClickStart; ClickPause; Resume 0 FetchResponded;
                   ClickStop; ClickStart; Resume 0 DelayElapsed]
                  eq_refl)).
Defined.

(** X12.  Whatever happens in a session, every result is for a candidate of
    the wordlist: no invocation ever probes past the end of the list. *)
Theorem session_results_in_wordlist
    (wordlist : list jsstring) (clock : nat -> jsstring)
    (abortMessage : jsstring) (target : jsstring) (acts : list Action) :
  let s := session wordlist clock abortMessage acts (fresh target) in
  Forall (fun r => In (Result.path r) wordlist) (results (shared s))
  /\ Forall (fun k => call_at k = AwaitFetch \/ call_at k = AwaitPause ->
                      i (call_frame k) < length wordlist)
            (calls s).
Proof.
  apply (@session_Kept wordlist clock abortMessage
           (fun c => Forall (fun r => In (Result.path r) wordlist) (results c))
           (fun k => call_at k = AwaitFetch \/ call_at k = AwaitPause ->
                     i (call_frame k) < length wordlist)
           (fun _ _ => True)).
  - intros current ev c k _ _ HG HK.
    exact (step_in_wordlist wordlist clock abortMessage ev (machineOf c k)
             HG HK).
  - intros c k HG _. split; [exact HG | intros [H|H]; discriminate].
  - intros s m _ _ Hstart.
    destruct (@startScan_begins wordlist clock abortMessage _ m Hstart)
      as (-> & _ & _ & _ & _ & Hi & Hat).
    split; [constructor|]. cbn [call_frame call_at]. rewrite Hi.
    destruct wordlist; [|simpl; lia].
    destruct Hat as [-> _]. intros [H|H]; discriminate.
  - intros s _ [HG _]. unfold stopScan.
    destruct (abortControllerRef (shared s)); exact HG.
  - intros s _ [HG _]. exact HG.
  - intros s text _ [HG _]. exact HG.
  - apply Along_always.
  - split; constructor.
Qed.

(** *** Start pressed while a stopped invocation is still in its delay *)

Section Overlap.

Variable wordlist : list jsstring.
Variable clock : nat -> jsstring.
Variable abortMessage : jsstring.

Local Abbreviation Act := (act wordlist clock abortMessage).
Local Abbreviation Play := (session wordlist clock abortMessage).

Lemma resumeNth_at (j current : nat) (ev : Event) (c : Component) :
  forall (ks : list Call) (k : Call),
    nth_error ks j = Some k ->
    fst (resumeNth wordlist clock abortMessage j current ev c ks)
    = fst (resumeCall wordlist clock abortMessage current ev c k)
    /\ nth_error
         (snd (resumeNth wordlist clock abortMessage j current ev c ks)) j
       = Some (snd (resumeCall wordlist clock abortMessage current ev c k)).
Proof.
  induction j as [|j IH]; intros [|k0 ks] k Hk; try discriminate;
    cbn [resumeNth].
  - injection Hk as ->.
    destruct (resumeCall wordlist clock abortMessage current ev c k).
    split; reflexivity.
  - destruct (IH ks k Hk) as [H1 H2].
    destruct (resumeNth wordlist clock abortMessage j current ev c ks).
    split; assumption.
Qed.

(** Aborting leaves alone every invocation without a request in flight, and
    the target; a component that shows no scan still shows none. *)
Lemma rejectAll_keeps (current : nat) :
  forall (ks : list Call) (c : Component),
    let out := rejectAll wordlist clock abortMessage current c ks in
    targetUrl (fst out) = targetUrl c
    /\ (isScanning c = false -> isScanning (fst out) = false)
    /\ forall j k, nth_error ks j = Some k -> call_at k <> AwaitFetch ->
                   nth_error (snd out) j = Some k.
Proof.
  induction ks as [|k0 ks IH]; intros c; cbn [rejectAll].
  - repeat split; auto.
  - rewrite rejectCall_unfold.
    assert (Hcase :
      exists c1 k1,
        (match call_at k0 with
         | AwaitFetch =>
             if (call_signal k0 =? current)%nat
             then (setIsPaused false (setIsScanning false c),
                   {| call_frame := call_frame k0; call_at := Returned;
                      call_signal := call_signal k0 |})
             else (c, k0)
         | _ => (c, k0)
         end) = (c1, k1)
        /\ targetUrl c1 = targetUrl c
        /\ (isScanning c = false -> isScanning c1 = false)
        /\ (call_at k0 <> AwaitFetch -> k1 = k0)).
    { destruct (call_at k0); try (exists c, k0; repeat split; auto; fail).
      destruct (call_signal k0 =? current)%nat;
        eexists; eexists; split; try reflexivity; repeat split; auto;
        congruence. }
    destruct Hcase as (c1 & k1 & -> & Ht & Hs & Hk).
    destruct (IH c1) as (Ht' & Hs' & Hn').
    destruct (rejectAll wordlist clock abortMessage current c1 ks)
      as [c2 ks2].
    cbn [fst snd] in *. split; [congruence|]. split; [auto|].
    intros [|j] k Hj Hat; cbn [nth_error] in *.
    + injection Hj as ->. rewrite (Hk Hat). reflexivity.
    + auto.
Qed.

(** Stop, Start and the end of the delay: the stopped invocation [j] goes on
    with its next candidate, under the new scan's signal. *)
Lemma revival (s : Session) (j : nat) (k : Call) :
  nth_error (calls s) j = Some k ->
  call_at k = AwaitDelay ->
  S (i (call_frame k)) < length wordlist ->
  closure_isPaused (call_frame k) = false ->
  isScanning (shared s) = true ->
  forallb isWhiteSpace (targetUrl (shared s)) = false ->
  let acts := [ClickStop; ClickStart; Resume j DelayElapsed] in
  permittedAll wordlist clock abortMessage acts s = true
  /\ controllers (Play acts s) = S (controllers s)
  /\ nth_error (calls (Play acts s)) j
     = Some {| call_frame := incrI (call_frame k);
               call_at := AwaitFetch;
               call_signal := S (controllers s) |}
  /\ results (shared (Play acts s)) = []
  /\ stats (shared (Play acts s)) = Stats.zero
  /\ signalAborted (shared (Play acts s)) = false
  /\ isScanning (shared (Play acts s)) = true.
Proof.
  intros Hk Hat Hmore Hclosure Hshown Htarget acts.
  assert (Hnf : call_at k <> AwaitFetch) by (rewrite Hat; discriminate).
  (* stop *)
  assert (H1 : targetUrl (shared (Act ClickStop s)) = targetUrl (shared s)
               /\ isScanning (shared (Act ClickStop s)) = false
               /\ nth_error (calls (Act ClickStop s)) j = Some k
               /\ controllers (Act ClickStop s) = controllers s).
  { cbn [act].
    assert (Hst : targetUrl (stopScan (shared s)) = targetUrl (shared s)
                  /\ isScanning (stopScan (shared s)) = false)
      by (unfold stopScan; destruct (abortControllerRef (shared s)); auto).
    destruct Hst as [Hst1 Hst2].
    destruct (negb (signalAborted (shared s))
              && signalAborted (stopScan (shared s))); [|auto].
    destruct (rejectAll_keeps (controllers s) (calls s) (stopScan (shared s)))
      as (Ht & Hs & Hn).
    destruct (rejectAll wordlist clock abortMessage (controllers s)
                (stopScan (shared s)) (calls s)) as [c' ks].
    cbn [fst snd shared calls controllers] in *.
    repeat split; auto; congruence. }
  destruct H1 as (Ht1 & Hs1 & Hn1 & Hc1).
  (* start *)
  rewrite <- Ht1 in Htarget.
  destruct (startScan_started wordlist clock abortMessage _ Htarget)
    as [m Hstart].
  destruct (@startScan_begins wordlist clock abortMessage _ m Hstart)
    as (Hres & Hstats & _ & Hsig & _ & _ & Hbegin).
  assert (Hscan : isScanning (ui m) = true).
  { destruct wordlist; [simpl in Hmore; lia|]. apply Hbegin. }
  assert (H2 : Act ClickStart (Act ClickStop s)
               = {| shared := ui m;
                    controllers := S (controllers s);
                    calls := calls (Act ClickStop s)
                             ++ [{| call_frame := frame m;
                                    call_at := at_ m;
                                    call_signal := S (controllers s) |}] |}).
  { cbn [act]. cbn [act] in Hstart. rewrite Hstart. cbn [act] in Hc1.
    rewrite Hc1. reflexivity. }
  (* the delay of invocation [j] is over *)
  assert (Hj : nth_error (calls (Act ClickStart (Act ClickStop s))) j
               = Some k).
  { rewrite H2. cbn [calls]. rewrite nth_error_app1; [exact Hn1|].
    apply nth_error_Some. rewrite Hn1. discriminate. }
  assert (Hresume :
            resumeCall wordlist clock abortMessage (S (controllers s))
                       DelayElapsed (ui m) k
            = (ui m, {| call_frame := incrI (call_frame k);
                        call_at := AwaitFetch;
                        call_signal := S (controllers s) |})).
  { unfold resumeCall, machineOf, step. cbn [ui frame at_].
    rewrite Hat. unfold nextIteration. rewrite loop_unfold.
    apply Nat.ltb_lt in Hmore.
    cbn [incrI i closure_isPaused]. rewrite Hmore, Hsig, Hclosure.
    reflexivity. }
  assert (H3 : Play acts s
               = Act (Resume j DelayElapsed)
                     (Act ClickStart (Act ClickStop s))) by reflexivity.
  assert (Hperm : permittedAll wordlist clock abortMessage acts s = true).
  { unfold acts. cbn [permittedAll permitted].
    unfold scanButtonsShown, startButtonShown.
    rewrite Hshown, Hs1. reflexivity. }
  split; [exact Hperm|]. rewrite H3.
  cbn [act]. cbn [act] in H2, Hj. rewrite H2 in Hj |- *.
  cbn [shared controllers calls] in Hj |- *.
  destruct (resumeNth_at j (S (controllers s)) DelayElapsed (ui m) _ Hj)
    as [Hfst Hsnd].
  rewrite Hresume in Hfst, Hsnd. cbn [fst snd] in Hfst, Hsnd.
  destruct (resumeNth wordlist clock abortMessage j (S (controllers s))
              DelayElapsed (ui m) _) as [c3 ks3].
  cbn [fst snd shared controllers calls] in *. subst c3.
  repeat split; assumption.
Qed.

End Overlap.

(** X13.  Stop does not stick across a new Start.  Take an invocation that
    is in its delay with candidates left, in a component that shows a scan.
    The user presses Stop and then Start (both offered by the page), and the
    delay ends: the stopped invocation issues the request for its next
    candidate, now under the signal of the new scan. *)
Theorem stopped_scan_revived
    (wordlist : list jsstring) (clock : nat -> jsstring)
    (abortMessage : jsstring) (s : Session) (j : nat) (k : Call)
    (Hcall : nth_error (calls s) j = Some k)
    (Hdelay : call_at k = AwaitDelay)
    (Hmore : S (i (call_frame k)) < length wordlist)
    (Hclosure : closure_isPaused (call_frame k) = false)
    (Hshown : isScanning (shared s) = true)
    (Htarget : forallb isWhiteSpace (targetUrl (shared s)) = false) :
  let acts := [ClickStop; ClickStart; Resume j DelayElapsed] in
  let s' := session wordlist clock abortMessage acts s in
  permittedAll wordlist clock abortMessage acts s = true
  /\ nth_error (calls s') j
     = Some {| call_frame := incrI (call_frame k);
               call_at := AwaitFetch;
               call_signal := S (controllers s) |}
  /\ controllers s' = S (controllers s)
  /\ signalAborted (shared s') = false
  /\ isScanning (shared s') = true.
Proof.
  destruct (@revival wordlist clock abortMessage s j k
              Hcall Hdelay Hmore Hclosure Hshown Htarget)
    as (Hp & Hc & Hn & _ & _ & Ha & Hs).
  repeat split; assumption.
Qed.

Lemma stopped_scan_revived_witness :
  let s := session commonPaths sampleClock sampleAbortMessage
                   [ClickStart; Resume 0 FetchResponded]
                   (fresh (lit "example.com")) in
  exists k,
    nth_error (calls s) 0 = Some k
    /\ call_at k = AwaitDelay
    /\ nth_error
         (calls (session commonPaths sampleClock sampleAbortMessage
                         [ClickStop; ClickStart; Resume 0 DelayElapsed] s)) 0
       = Some {| call_frame := incrI (call_frame k);
                 call_at := AwaitFetch;
                 call_signal := 2 |}.
Proof.
  eexists. split; [reflexivity|]. split; [reflexivity|].
  exact (proj1 (proj2 (@stopped_scan_revived
                         commonPaths sampleClock sampleAbortMessage
                         (session commonPaths sampleClock sampleAbortMessage
                                  [ClickStart; Resume 0 FetchResponded]
                                  (fresh (lit "example.com")))
                         0 _ eq_refl eq_refl
                         ltac:(vm_compute; lia) eq_refl eq_refl eq_refl))).
Defined.



(** ** Sessions without overlap

    When the Start button is only pressed while no invocation is alive, the
    newest invocation is alone with the component, and the session is a run
    of its machine. *)

Section Lone.

Variable wordlist : list jsstring.
Variable clock : nat -> jsstring.
Variable abortMessage : jsstring.

Local Abbreviation Step := (step wordlist clock abortMessage).
Local Abbreviation Run := (run wordlist clock abortMessage).
Local Abbreviation Act := (act wordlist clock abortMessage).
Local Abbreviation Play := (session wordlist clock abortMessage).

Local Unset Implicit Arguments.

Lemma stopScan_target (t : jsstring) (c : Component) :
  stopScan (setTargetUrl t c) = setTargetUrl t (stopScan c).
Proof.
  unfold stopScan. simpl. destruct (abortControllerRef c); reflexivity.
Qed.

(** The code of an invocation never reads the input. *)
Lemma step_target (t : jsstring) (ev : Event) (c : Component) (f : Frame)
    (a : Suspension) :
  Step ev {| ui := setTargetUrl t c; frame := f; at_ := a |}
  = {| ui := setTargetUrl t
               (ui (Step ev {| ui := c; frame := f; at_ := a |}));
       frame := frame (Step ev {| ui := c; frame := f; at_ := a |});
       at_ := at_ (Step ev {| ui := c; frame := f; at_ := a |}) |}.
Proof.
  destruct ev, a; unfold step; cbn [ui frame at_];
    rewrite ?stopScan_target;
    change (signalAborted (setTargetUrl t c)) with (signalAborted c);
    change (signalAborted (setTargetUrl t (stopScan c)))
      with (signalAborted (stopScan c));
    try reflexivity.
  - destruct (negb (closure_isPaused f) || signalAborted c); [|reflexivity].
    unfold probe, fetch.
    change (signalAborted (setTargetUrl t c)) with (signalAborted c).
    destruct (signalAborted c); reflexivity.
  - unfold nextIteration. rewrite !loop_unfold.
    change (signalAborted (setTargetUrl t c)) with (signalAborted c).
    destruct (i (incrI f) <? length wordlist)%nat, (signalAborted c),
      (closure_isPaused (incrI f)); reflexivity.
  - destruct (negb (signalAborted c) && signalAborted (stopScan c));
      reflexivity.
Qed.

(** An invocation that has returned does nothing when resumed. *)
Lemma resumeCall_returned (current : nat) (ev : Event) (c : Component)
    (o : Call) :
  fromEnvironment ev -> call_at o = Returned ->
  resumeCall wordlist clock abortMessage current ev c o = (c, o).
Proof.
  intros [Hs Hp] Ho. destruct o as [f a sg]. cbn [call_at] in Ho. subst a.
  destruct ev; try congruence; reflexivity.
Qed.

Lemma resumeNth_solo (current : nat) (ev : Event) (k : Call) :
  fromEnvironment ev ->
  forall (olds : list Call) (j : nat) (c : Component),
    Forall (fun o => call_at o = Returned) olds ->
    resumeNth wordlist clock abortMessage j current ev c (olds ++ [k])
    = if (j =? length olds)%nat
      then (fst (resumeCall wordlist clock abortMessage current ev c k),
            olds ++ [snd (resumeCall wordlist clock abortMessage
                                     current ev c k)])
      else (c, olds ++ [k]).
Proof.
  intros Hev. induction olds as [|o olds IH]; intros j c Hold.
  - destruct j as [|j]; cbn [app resumeNth length Nat.eqb].
    + destruct (resumeCall wordlist clock abortMessage current ev c k).
      reflexivity.
    + destruct j; reflexivity.
  - inversion Hold as [|? ? Ho Holds]; subst.
    destruct j as [|j]; cbn [app resumeNth length Nat.eqb].
    + rewrite (resumeCall_returned current ev c o Hev Ho). reflexivity.
    + rewrite (IH j c Holds).
      destruct (j =? length olds)%nat; reflexivity.
Qed.

Lemma rejectAll_solo (current : nat) (k : Call) :
  forall (olds : list Call) (c : Component),
    Forall (fun o => call_at o = Returned) olds ->
    rejectAll wordlist clock abortMessage current c (olds ++ [k])
    = (fst (rejectCall wordlist clock abortMessage current c k),
       olds ++ [snd (rejectCall wordlist clock abortMessage current c k)]).
Proof.
  induction olds as [|o olds IH]; intros c Hold; cbn [app rejectAll].
  - destruct (rejectCall wordlist clock abortMessage current c k).
    reflexivity.
  - inversion Hold as [|? ? Ho Holds]; subst.
    rewrite rejectCall_unfold, Ho, (IH c Holds). reflexivity.
Qed.

(** One action on a session that is the machine [m]: the machine sees the
    event the action is to it. *)
Lemma act_solo (s : Session) (m : Machine) (a : Action) :
  Solo s m -> isStart a = false ->
  Solo (Act a s) (Run (eventOf (pred (length (calls s))) a) m)
  /\ length (calls (Act a s)) = length (calls s).
Proof.
  intros [(olds & k & Hc & Hold & Hf & Ha & Hs) Hsh] Hstart.
  destruct s as [sh ctr cl], m as [c f a0], k as [kf ka ks].
  cbn [calls shared controllers ui frame at_ call_frame call_at call_signal]
    in *.
  subst cl kf ka ks. generalize dependent (targetUrl sh). intros t Hsh.
  subst sh. rewrite length_app, Nat.add_1_r. cbn [pred length].
  assert (Hsolo : forall c' f' a' t',
            Solo {| shared := setTargetUrl t' c'; controllers := ctr;
                    calls := olds ++ [{| call_frame := f'; call_at := a';
                                         call_signal := ctr |}] |}
                 {| ui := c'; frame := f'; at_ := a' |}).
  { intros c' f' a' t'. split; [|reflexivity].
    exists olds. eexists. cbn [calls controllers]. split; [reflexivity|].
    repeat split; assumption. }
  assert (Hlen : forall k', length (olds ++ [k']) = S (length olds))
    by (intros; rewrite length_app, Nat.add_1_r; reflexivity).
  destruct a as [| | |text|j ev]; try discriminate.
  - (* stop *)
    cbn [act eventOf shared controllers calls]. unfold run. cbn [fold_left].
    rewrite stopScan_target.
    change (signalAborted (setTargetUrl t c)) with (signalAborted c).
    change (signalAborted (setTargetUrl t (stopScan c)))
      with (signalAborted (stopScan c)).
    destruct (negb (signalAborted c) && signalAborted (stopScan c)) eqn:E.
    + rewrite (rejectAll_solo ctr _ olds _ Hold), rejectCall_unfold.
      cbn [call_frame call_at call_signal]. rewrite Nat.eqb_refl.
      destruct a0; unfold step; cbn [ui frame at_ fst snd]; rewrite ?E;
        (split; [apply Hsolo | apply Hlen]).
    + destruct a0; unfold step; cbn [ui frame at_]; rewrite ?E;
        (split; [apply Hsolo | apply Hlen]).
  - (* pause *)
    cbn [act eventOf shared controllers calls]. unfold run. cbn [fold_left].
    split; [apply (Hsolo (togglePause c) f a0 t) | apply Hlen].
  - (* typing *)
    cbn [act eventOf shared controllers calls]. unfold run. cbn [fold_left].
    split; [apply (Hsolo c f a0 text) | apply Hlen].
  - (* the environment *)
    assert (Hev : fromEnvironment ev \/ (ev = StopClicked \/ ev = PauseClicked))
      by (unfold fromEnvironment; destruct ev; auto; left; split; discriminate).
    destruct Hev as [Hev|Hev].
    + assert (Hact : Act (Resume j ev)
                       {| shared := setTargetUrl t c; controllers := ctr;
                          calls := olds ++ [{| call_frame := f;
                                               call_at := a0;
                                               call_signal := ctr |}] |}
                     = (let (c', ks) :=
                          resumeNth wordlist clock abortMessage j ctr ev
                            (setTargetUrl t c)
                            (olds ++ [{| call_frame := f; call_at := a0;
                                         call_signal := ctr |}]) in
                        {| shared := c'; controllers := ctr; calls := ks |}))
        by (destruct ev, Hev; try congruence; reflexivity).
      assert (Hevs : eventOf (length olds) (Resume j ev)
                     = if (j =? length olds)%nat then [ev] else [])
        by (destruct ev, Hev; try congruence; reflexivity).
      rewrite Hact, Hevs, (resumeNth_solo ctr ev _ Hev olds j _ Hold).
      destruct (j =? length olds)%nat.
      * unfold resumeCall, machineOf.
        cbn [fst snd call_frame call_at call_signal run fold_left].
        rewrite step_target. cbn [ui frame at_].
        destruct (Step ev {| ui := c; frame := f; at_ := a0 |})
          as [c' f' a'].
        cbn [ui frame at_].
        replace (if match a' with
                    | AwaitFetch =>
                        match a0 with
                        | AwaitFetch => false
                        | _ => true
                        end
                    | _ => false
                    end then ctr else ctr) with ctr
          by (destruct a', a0; reflexivity).
        split; [apply Hsolo | apply Hlen].
      * cbn [run fold_left]. split; [apply Hsolo | apply Hlen].
    + assert (Hid : Act (Resume j ev)
                      {| shared := setTargetUrl t c; controllers := ctr;
                         calls := olds ++ [{| call_frame := f;
                                              call_at := a0;
                                              call_signal := ctr |}] |}
                    = {| shared := setTargetUrl t c; controllers := ctr;
                         calls := olds ++ [{| call_frame := f;
                                              call_at := a0;
                                              call_signal := ctr |}] |})
        by (destruct Hev; subst ev; reflexivity).
      assert (Hevs : eventOf (length olds) (Resume j ev) = [])
        by (destruct Hev; subst ev; reflexivity).
      rewrite Hid, Hevs. cbn [run fold_left].
      split; [apply Hsolo | apply Hlen].
Qed.

Lemma run_app (evs1 evs2 : list Event) (m : Machine) :
  Run (evs1 ++ evs2) m = Run evs2 (Run evs1 m).
Proof. apply fold_left_app. Qed.


(** A session without overlap is still before its first scan, or it is the
    machine of a scan that [startScan] began. *)
Lemma noOverlap_solo (acts : list Action) :
  forall s : Session,
    noOverlap wordlist clock abortMessage acts s = true ->
    Unstarted s
    \/ (exists c m0 evs,
           startScan wordlist clock abortMessage c = Scanning m0
           /\ Solo s (Run evs m0)) ->
    Unstarted (Play acts s)
    \/ (exists c m0 evs,
           startScan wordlist clock abortMessage c = Scanning m0
           /\ Solo (Play acts s) (Run evs m0)).
Proof.
  induction acts as [|a acts IH]; intros s Hno HJ; [exact HJ|].
  cbn [noOverlap] in Hno. apply andb_true_iff in Hno as [Ha Hno].
  cbn [session fold_left]. apply (IH _ Hno). clear IH Hno.
  assert (Hstart : forall olds,
            calls s = olds ->
            Forall (fun o => call_at o = Returned) olds ->
            Unstarted s
            \/ (exists c m0 evs,
                   startScan wordlist clock abortMessage c = Scanning m0
                   /\ Solo s (Run evs m0)) ->
            Unstarted (Act ClickStart s)
            \/ (exists c m0 evs,
                   startScan wordlist clock abortMessage c = Scanning m0
                   /\ Solo (Act ClickStart s) (Run evs m0))).
  { intros olds Hc Hold HJ'. cbn [act].
    destruct (startScan wordlist clock abortMessage (shared s))
      as [|m0] eqn:E; [exact HJ'|].
    right. exists (shared s), m0, []. split; [exact E|].
    split; cbn [shared calls controllers run fold_left].
    - exists olds. eexists. rewrite Hc. split; [reflexivity|].
      repeat split. exact Hold.
    - destruct (ui m0); reflexivity. }
  destruct HJ as [(Hc & Hr & Hst & Hp)|(c & m0 & evs & Hs & Hsolo)].
  - (* before the first scan *)
    destruct a as [| | |text|j ev].
    + apply (Hstart []); auto. left. repeat split; assumption.
    + left. cbn [act]. rewrite Hc. cbn [rejectAll].
      assert (Hk : results (stopScan (shared s)) = results (shared s)
                   /\ stats (stopScan (shared s)) = stats (shared s)
                   /\ progress (stopScan (shared s)) = progress (shared s))
        by (unfold stopScan; destruct (abortControllerRef (shared s)); auto).
      destruct Hk as (Hk1 & Hk2 & Hk3).
      destruct (negb (signalAborted (shared s))
                && signalAborted (stopScan (shared s)));
        (split; [reflexivity|]); cbn [shared];
        rewrite Hk1, Hk2, Hk3; auto.
    + left. repeat split; assumption.
    + left. repeat split; assumption.
    + left. cbn [act]. rewrite Hc.
      destruct ev; cbn [resumeNth]; try (repeat split; assumption);
        destruct j; repeat split; assumption.
  - (* the machine of a scan *)
    destruct (isStart a) eqn:Hst.
    + destruct a; try discriminate.
      pose proof Hsolo as [(olds & k & Hc & _) _].
      apply (Hstart (olds ++ [k]) Hc).
      * unfold allReturned in Ha. rewrite Hc in Ha.
        rewrite forallb_forall in Ha. apply Forall_forall.
        intros o Ho. specialize (Ha o Ho). unfold returned in Ha.
        destruct (call_at o); try discriminate. reflexivity.
      * right. exists c, m0, evs. auto.
    + right. destruct (act_solo s _ a Hsolo Hst) as [Hsolo' _].
      exists c, m0, (evs ++ eventOf (pred (length (calls s))) a).
      rewrite run_app. auto.
Qed.

(** In a session without overlap the newest invocation is a machine in a
    state that one scan alone can be in. *)
Lemma noOverlap_newest (target : jsstring) (acts : list Action) (k : Call) :
  noOverlap wordlist clock abortMessage acts (fresh target) = true ->
  newest (Play acts (fresh target)) = Some k ->
  exists c m0 evs,
    startScan wordlist clock abortMessage c = Scanning m0
    /\ Solo (Play acts (fresh target)) (Run evs m0)
    /\ call_frame k = frame (Run evs m0)
    /\ call_at k = at_ (Run evs m0).
Proof.
  intros Hno Hk.
  destruct (noOverlap_solo acts (fresh target) Hno)
    as [(Hc & _)|(c & m0 & evs & Hs & Hsolo)].
  - left. repeat split.
  - unfold newest in Hk. rewrite Hc in Hk. discriminate.
  - exists c, m0, evs. split; [exact Hs|]. split; [exact Hsolo|].
    destruct Hsolo as [(olds & k' & Hc & _ & Hf & Ha & _) _].
    unfold newest in Hk. rewrite Hc, length_app, Nat.add_1_r in Hk.
    cbn [pred] in Hk. rewrite nth_error_app2, Nat.sub_diag in Hk by lia.
    injection Hk as <-. auto.
Qed.

End Lone.

Section LoneFacts.

Variable wordlist : list jsstring.
Variable clock : nat -> jsstring.
Variable abortMessage : jsstring.

Local Abbreviation Step := (step wordlist clock abortMessage).
Local Abbreviation Run := (run wordlist clock abortMessage).
Local Abbreviation Act := (act wordlist clock abortMessage).
Local Abbreviation Play := (session wordlist clock abortMessage).

Local Unset Implicit Arguments.

(** What the page shows of a session that is the machine [m]. *)
Lemma Solo_shared (s : Session) (m : Machine) :
  Solo s m ->
  results (shared s) = results (ui m)
  /\ stats (shared s) = stats (ui m)
  /\ progress (shared s) = progress (ui m)
  /\ isScanning (shared s) = isScanning (ui m)
  /\ signalAborted (shared s) = signalAborted (ui m).
Proof. intros [_ ->]. repeat split. Qed.

Lemma Solo_newest (s : Session) (m : Machine) :
  Solo s m ->
  exists k,
    newest s = Some k /\ call_frame k = frame m /\ call_at k = at_ m
    /\ Forall (fun o => call_at o = Returned \/ o = k) (calls s).
Proof.
  intros [(olds & k & Hc & Hold & Hf & Ha & _) _]. exists k.
  unfold newest. rewrite Hc, length_app, Nat.add_1_r. cbn [pred].
  rewrite nth_error_app2, Nat.sub_diag by lia.
  repeat split; auto. apply Forall_app. split.
  - eapply Forall_impl; [|exact Hold]. auto.
  - constructor; auto.
Qed.



End LoneFacts.

(** ** A scan without overlap *)

(** C1, amended.  In a session without overlap, when the newest invocation
    has returned and its signal was not aborted (the scan was not stopped),
    the page holds exactly one result per candidate, newest first: the
    results are the wordlist in reverse, the result at index [j] is for
    candidate [|W| - 1 - j], and each result's URL is the base URL of the
    invocation, a separator and the candidate. *)
Theorem lone_scan_completed
    (wordlist : list jsstring) (clock : nat -> jsstring)
    (abortMessage : jsstring) (target : jsstring) (acts : list Action)
    (k : Call)
    (Hlone : noOverlap wordlist clock abortMessage acts (fresh target)
             = true)
    (Hnewest : newest (session wordlist clock abortMessage acts
                               (fresh target)) = Some k)
    (Hreturned : call_at k = Returned)
    (Hnostop : signalAborted
                 (shared (session wordlist clock abortMessage acts
                                  (fresh target))) = false) :
  let rs := results (shared (session wordlist clock abortMessage acts
                                     (fresh target))) in
  length rs = length wordlist
  /\ map Result.path rs = rev wordlist
  /\ (forall j d, j < length wordlist ->
        nth j (map Result.path rs) d = nth (length wordlist - S j) wordlist d)
  /\ Forall (fun r => Result.url r
                      = baseUrl (call_frame k) ++ lit "/" ++ Result.path r)
            rs
  /\ exists raw, baseUrl (call_frame k) = normalizeUrl raw.
Proof.
  intros rs.
  destruct (noOverlap_newest wordlist clock abortMessage target acts k
              Hlone Hnewest) as (c & m0 & evs & Hstart & Hsolo & Hf & Ha).
  destruct (Solo_shared _ _ Hsolo) as (Hr & _ & _ & _ & Hsig).
  destruct (@scan_Consistent wordlist clock abortMessage c m0 evs Hstart)
    as [HT HP].
  destruct (@startScan_baseUrl wordlist clock abortMessage c m0 Hstart)
    as [Hbase _].
  unfold Placed in HP. rewrite <- Ha, Hreturned in HP. destruct HP as [_ HP].
  rewrite <- Hsig, Hnostop in HP. destruct HP as [HP|HP]; [discriminate|].
  pose proof (inv_paths HT) as Hpaths. pose proof (inv_urls HT) as Hurls.
  rewrite <- Hr in HP, Hpaths, Hurls. rewrite <- Hf in Hurls.
  fold rs in HP, Hpaths, Hurls.
  rewrite HP, firstn_all in Hpaths.
  repeat split; trivial.
  - intros j d Hj. rewrite Hpaths. apply rev_nth. exact Hj.
  - exists (targetUrl c). rewrite Hf, run_baseUrl. exact Hbase.
Qed.

Lemma lone_scan_completed_witness :
  let acts := [ClickStart; Resume 0 FetchResponded; Resume 0 DelayElapsed;
               Resume 0 (FetchFailed (lit "Failed to fetch"));
               Resume 0 DelayElapsed;
               ClickStart; Resume 1 FetchResponded; Resume 1 DelayElapsed;
               Resume 1 FetchResponded; Resume 1 DelayElapsed] in
  let s := session [lit "admin"; lit "nope"] sampleClock sampleAbortMessage
                   acts (fresh (lit "example.com")) in
  permittedAll [lit "admin"; lit "nope"] sampleClock sampleAbortMessage
               acts (fresh (lit "example.com")) = true
  /\ map Result.path (results (shared s)) = [lit "nope"; lit "admin"].
Proof.
  split; [vm_compute; reflexivity|].
  refine (proj1 (proj2 (@lone_scan_completed
                          [lit "admin"; lit "nope"] sampleClock
                          sampleAbortMessage (lit "example.com")
                          [ClickStart; Resume 0 FetchResponded;
                           Resume 0 DelayElapsed;
                           Resume 0 (FetchFailed (lit "Failed to fetch"));
                           Resume 0 DelayElapsed;
                           ClickStart; Resume 1 FetchResponded;
                           Resume 1 DelayElapsed;
                           Resume 1 FetchResponded; Resume 1 DelayElapsed]
                          {| call_frame :=
                               {| closure_isPaused := false;
                                  baseUrl := lit "https://example.com";
                                  currentStats := Stats.mk 2 0 0;
                                  i := 2 |};
                             call_at := Returned;
                             call_signal := 2 |}
                          _ _ _ _)));
    vm_compute; reflexivity.
Defined.

(** Without overlap the tally matches the results at every moment. *)
Lemma lone_tally_matches
    (wordlist : list jsstring) (clock : nat -> jsstring)
    (abortMessage : jsstring) (target : jsstring) (acts : list Action) :
  noOverlap wordlist clock abortMessage acts (fresh target) = true ->
  let s := session wordlist clock abortMessage acts (fresh target) in
  Stats.total (stats (shared s)) = length (results (shared s)).
Proof.
  intros Hlone s.
  destruct (noOverlap_solo wordlist clock abortMessage acts (fresh target)
              Hlone) as [(_ & Hr & Hst & _)|(c & m0 & evs & Hstart & Hsolo)].
  - left. repeat split.
  - fold s in Hr, Hst. rewrite Hr, Hst. reflexivity.
  - destruct (Solo_shared _ _ Hsolo) as (Hr & Hst & _). fold s in Hr, Hst.
    destruct (@scan_Consistent wordlist clock abortMessage c m0 evs Hstart)
      as [HT _].
    rewrite Hr, Hst. unfold Stats.total.
    rewrite (inv_errors HT), (inv_count HT). lia.
Qed.

(** ** Stop during the delay, without overlap *)



(** ** Results and progress without overlap *)

(** X6.  In a session without overlap, at every moment (a scan running,
    stopped or completed, or none started yet) the results on the page are
    the first candidates of the wordlist, one result each, newest first: no
    candidate is skipped and none is probed twice.  Each URL is the base URL
    of the newest invocation, a separator and the candidate, so a wordlist
    without repetitions gives results without repeated URLs. *)
Theorem lone_results_follow_wordlist
    (wordlist : list jsstring) (clock : nat -> jsstring)
    (abortMessage : jsstring) (target : jsstring) (acts : list Action)
    (Hlone : noOverlap wordlist clock abortMessage acts (fresh target)
             = true) :
  let s := session wordlist clock abortMessage acts (fresh target) in
  let rs := results (shared s) in
  length rs <= length wordlist
  /\ map Result.path (rev rs) = firstn (length rs) wordlist
  /\ (forall k, newest s = Some k ->
        map Result.url rs
        = map (fun path => baseUrl (call_frame k) ++ lit "/" ++ path)
              (map Result.path rs))
  /\ (NoDup wordlist -> NoDup (map Result.url rs)).
Proof.
  intros s rs.
  destruct (noOverlap_solo wordlist clock abortMessage acts (fresh target)
              Hlone) as [(Hc & Hr & _)|(c & m0 & evs & Hstart & Hsolo)].
  - left. repeat split.
  - fold s in Hc, Hr. fold rs in Hr. rewrite Hr. simpl.
    repeat split; try lia; constructor.
  - fold s in Hsolo.
    destruct (Solo_shared _ _ Hsolo) as (Hr & _).
    destruct (Solo_newest _ _ Hsolo) as (k0 & Hk0 & Hf0 & _).
    destruct (@scan_Consistent wordlist clock abortMessage c m0 evs Hstart)
      as [HT _].
    pose proof (inv_paths HT) as Hpaths. pose proof (inv_urls HT) as Hurls.
    pose proof (inv_bound HT) as Hbound.
    rewrite <- Hr in Hpaths, Hurls, Hbound. rewrite <- Hf0 in Hurls.
    fold rs in Hpaths, Hurls, Hbound.
    assert (Hmap : map Result.url rs
                   = map (fun path => baseUrl (call_frame k0) ++ lit "/"
                                      ++ path)
                         (map Result.path rs)).
    { rewrite map_map. apply map_ext_in. intros r Hin.
      rewrite Forall_forall in Hurls. exact (Hurls r Hin). }
    split; [exact Hbound|]. split; [|split].
    + rewrite map_rev, Hpaths. apply rev_involutive.
    + intros k Hk. rewrite Hk0 in Hk. injection Hk as <-. exact Hmap.
    + intros Hnd. rewrite Hmap, Hpaths.
      rewrite (map_ext _ (fun path => (baseUrl (call_frame k0) ++ lit "/")
                                        ++ path))
        by (intros; apply app_assoc).
      apply NoDup_map_prefixed, NoDup_rev, NoDup_firstn, Hnd.
Qed.

Lemma lone_results_follow_wordlist_witness :
  map Result.path
      (rev (results
              (shared
                 (session commonPaths sampleClock sampleAbortMessage
                          [ClickStart; Resume 0 FetchResponded;
                           Resume 0 DelayElapsed;
                           Resume 0 (FetchFailed (lit "Failed to fetch"));
                           ClickStop; Resume 0 DelayElapsed; ClickStart;
                           Resume 1 FetchResponded]
                          (fresh (lit "example.com"))))))
  = firstn 1 commonPaths.
Proof.
  refine (proj1 (proj2
            (@lone_results_follow_wordlist
               commonPaths sampleClock sampleAbortMessage (lit "example.com")
               [ClickStart; Resume 0 FetchResponded;
                Resume 0 DelayElapsed;
                Resume 0 (FetchFailed (lit "Failed to fetch"));
                ClickStop; Resume 0 DelayElapsed; ClickStart;
                Resume 1 FetchResponded]
               _)));
    vm_compute; reflexivity.
Defined.

(** The doubles line 107 can compute for the component's own wordlist. *)
Lemma progressAfter_commonPaths (n : nat) :
  0 < n <= length commonPaths ->
  (0 <=? progressAfter commonPaths n)%float = true
  /\ (progressAfter commonPaths n <=? 100)%float = true
  /\ (n = length commonPaths -> progressAfter commonPaths n = 100%float).
Proof.
  intros Hn.
  assert (Hall :
    forallb (fun n =>
               (0 <=? progressAfter commonPaths n)%float
               && (progressAfter commonPaths n <=? 100)%float
               && (negb (n =? length commonPaths)%nat
                   || (progressAfter commonPaths n =? 100)%float))
            (seq 1 (length commonPaths)) = true)
    by (vm_compute; reflexivity).
  rewrite forallb_forall in Hall. specialize (Hall n).
  rewrite in_seq in Hall.
  assert (Hin : 1 <= n < 1 + length commonPaths) by lia.
  apply Hall in Hin. apply andb_true_iff in Hin as [Hin Hfull].
  apply andb_true_iff in Hin as [Hlow Hhigh].
  split; [exact Hlow|]. split; [exact Hhigh|].
  intros ->. vm_compute. reflexivity.
Qed.

(** X9.  In a session without overlap, at every moment the progress value is
    zero while there are no results, and after that the double that line 107
    computes for the number of results: that number divided by the length of
    the wordlist, times a hundred, each operation rounded as JavaScript
    rounds it.  For the component's own wordlist the value lies between 0
    and 100, and is 100 once every candidate has a result. *)
Theorem lone_progress
    (wordlist : list jsstring) (clock : nat -> jsstring)
    (abortMessage : jsstring) (target : jsstring) (acts : list Action)
    (Hlone : noOverlap wordlist clock abortMessage acts (fresh target)
             = true) :
  let s := session wordlist clock abortMessage acts (fresh target) in
  let done := length (results (shared s)) in
  progress (shared s)
  = (if (done =? 0)%nat then 0%float else progressAfter wordlist done)
  /\ (wordlist = commonPaths ->
      (0 <=? progress (shared s))%float = true
      /\ (progress (shared s) <=? 100)%float = true
      /\ (done = length commonPaths -> progress (shared s) = 100%float)).
Proof.
  intros s done.
  assert (Hvalue :
            progress (shared s)
            = (if (done =? 0)%nat then 0%float
               else progressAfter wordlist done)
            /\ done <= length wordlist).
  { destruct (noOverlap_solo wordlist clock abortMessage acts (fresh target)
                Hlone) as [(Hc & Hr & _ & Hp)|(c & m0 & evs & Hstart & Hsolo)].
    - left. repeat split.
    - fold s in Hr, Hp. unfold done. rewrite Hr, Hp. simpl. split; [auto|lia].
    - fold s in Hsolo.
      destruct (Solo_shared _ _ Hsolo) as (Hr & _ & Hp & _).
      pose proof (@scan_Measured wordlist clock abortMessage c m0 evs Hstart)
        as HM.
      destruct (@scan_Consistent wordlist clock abortMessage c m0 evs Hstart)
        as [HT _].
      pose proof (inv_bound HT) as Hb.
      unfold Measured in HM. rewrite <- Hr, <- Hp in HM. rewrite <- Hr in Hb.
      fold done in Hb. split; [|exact Hb].
      rewrite HM. unfold done.
      destruct (results (shared s)); reflexivity. }
  destruct Hvalue as [Hvalue Hbound]. split; [exact Hvalue|].
  intros ->. rewrite Hvalue.
  destruct (Nat.eqb_spec done 0) as [Hz|Hnz].
  - repeat split; try reflexivity. rewrite Hz. discriminate.
  - apply progressAfter_commonPaths. lia.
Qed.

Lemma lone_progress_witness :
  progress
    (shared (session commonPaths sampleClock sampleAbortMessage
                     [ClickStart; Resume 0 FetchResponded;
                      Resume 0 DelayElapsed;
                      Resume 0 (FetchFailed (lit "Failed to fetch"))]
                     (fresh (lit "example.com"))))
  = progressAfter commonPaths 2.
Proof.
  refine (proj1 (@lone_progress
                   commonPaths sampleClock sampleAbortMessage
                   (lit "example.com")
                   [ClickStart; Resume 0 FetchResponded;
                    Resume 0 DelayElapsed;
                    Resume 0 (FetchFailed (lit "Failed to fetch"))]
                   _));
    vm_compute; reflexivity.
Defined.

(** ** Start pressed inside the delay of a stopped scan: what the page
    shows *)

(** C2, at the failing input: the component scans [example.com]; the first
    request is answered, Stop is pressed, Start is pressed before the delay
    of the stopped invocation is over, that delay ends and the stopped
    invocation's next request is answered.  Every click is one the page
    offers.  The counters then add up to 2, and there is 1 result. *)
Theorem overlap_breaks_tally :
  let acts := [ClickStart; Resume 0 FetchResponded; ClickStop; ClickStart;
               Resume 0 DelayElapsed; Resume 0 FetchResponded] in
  let s := session commonPaths sampleClock sampleAbortMessage acts
                   (fresh (lit "example.com")) in
  permittedAll commonPaths sampleClock sampleAbortMessage acts
               (fresh (lit "example.com")) = true
  /\ noOverlap commonPaths sampleClock sampleAbortMessage acts
               (fresh (lit "example.com")) = false
  /\ stats (shared s) = Stats.mk 2 0 0
  /\ Stats.total (stats (shared s)) = 2
  /\ length (results (shared s)) = 1.
Proof. vm_compute. repeat split; reflexivity. Qed.

(** C4, at the failing input: the same session.  When Stop is pressed the
    scan has processed one candidate and has one result.  After Start, the
    stopped invocation, which is still in its delay, probes its next
    candidate and its record appears as a result, while the invocation that
    Start began has processed nothing; stopping that one leaves a stopped
    page with one result after none of its own candidates. *)
Theorem overlap_adds_result_after_stop :
  let before := [ClickStart; Resume 0 FetchResponded; ClickStop] in
  let after := [ClickStart; Resume 0 DelayElapsed; Resume 0 FetchResponded] in
  let stopped := session commonPaths sampleClock sampleAbortMessage before
                         (fresh (lit "example.com")) in
  let later := session commonPaths sampleClock sampleAbortMessage after
                       stopped in
  let again := act commonPaths sampleClock sampleAbortMessage ClickStop
                   later in
  permittedAll commonPaths sampleClock sampleAbortMessage
               (before ++ after ++ [ClickStop]) (fresh (lit "example.com"))
  = true
  /\ map Result.path (results (shared stopped)) = [lit "admin"]
  /\ isScanning (shared stopped) = false
  /\ signalAborted (shared stopped) = true
  /\ map Result.path (results (shared later)) = [lit "administrator"]
  /\ map (fun k => (call_at k, i (call_frame k))) (calls later)
     = [(AwaitDelay, 1); (AwaitFetch, 0)]
  /\ isScanning (shared again) = false
  /\ signalAborted (shared again) = true
  /\ map Result.path (results (shared again)) = [lit "administrator"]
  /\ map (fun k => (call_at k, i (call_frame k))) (calls again)
     = [(AwaitDelay, 1); (Returned, 0)].
Proof. vm_compute. repeat split; reflexivity. Qed.
